(** * webdriver-retry-wrapper: the retry engine and the locator chains of
      [src/driver.ts], embedded and verified.

    The browser driver, the clock and the JavaScript runtime are black boxes
    of the program.  They are a record of state transformers over an abstract
    [World]; every function of [driver.ts] is written over that record with
    the world threaded through by hand.  The world also holds what the
    program keeps between calls: the configuration that [Config] reads and
    the fields of the one [Driver] object, whose getter [driver] every
    operation goes through.  A retry loop may run for ever (the clock need
    not advance), so the loops carry a fuel argument and answer [None] when
    it runs out. *)

From Stdlib Require Import ZArith String Ascii List Lia.
From stdpp Require Import base decidable option list strings sorting gmap.


(** ** Locators

    [By.css(s)] and [By.xpath(s)] of selenium-webdriver build a [By] object
    with a strategy name and a selector; [toString] prints both. *)

Record By := mkBy { using_ : string; value : string }.

#[global] Instance By_eq_dec : EqDecision By.
Proof. solve_decision. Defined.

Module ByFactory.
Definition css (selector : string) : By := mkBy "css selector" selector.
Definition xpath (expr : string) : By := mkBy "xpath" expr.
End ByFactory.

Definition By_toString (b : By) : string :=
  "By(" +:+ using_ b +:+ ", " +:+ value b +:+ ")".

(** [String(array)]: the elements' strings joined by a comma. *)
Definition locators_toString (ls : list By) : string :=
  String.concat "," (map By_toString ls).

(** [`\nLocators chain: ${locators}`] *)
Definition chainContext (locators : list By) : string :=
  String "010"%char "Locators chain: " +:+ locators_toString locators.

(** ** Errors

    The classes the code tests with [instanceof], the two the code itself
    raises, and the rest of the driver's classes. *)

Inductive ErrorClass :=
| InvalidSelectorError
| NoSuchElementError
| StaleElementReferenceError
| WebDriverError
| TypeError
| AssertionError
| OtherErrorClass (name : string).

#[global] Instance ErrorClass_eq_dec : EqDecision ErrorClass.
Proof. solve_decision. Defined.

(** An error object as the driver raises it. *)
Record DriverError := mkDriverError {
  raised_cls : ErrorClass;
  raised_message : string;
  raised_stack : option string
}.

(** An error object as [driver.ts] sees and edits it: [getElementError] is the
    property the code adds, absent (false) on an error fresh from the
    driver. *)
Record JsError := mkJsError {
  cls : ErrorClass;
  message : string;
  stack : option string;
  getElementError : bool
}.

#[global] Instance JsError_eq_dec : EqDecision JsError.
Proof. solve_decision. Defined.

Definition fromDriver (e : DriverError) : JsError :=
  mkJsError (raised_cls e) (raised_message e) (raised_stack e) false.

(** How a piece of code ends when it does not return: it throws an error
    object, which a [catch] block around it sees, or it calls
    [process.exit(code)] after printing a line, which ends the process and
    which no [catch] block sees. *)
Inductive Abrupt :=
| Throw (e : JsError)
| Exit (code : Z) (printed : string).

#[global] Instance Abrupt_eq_dec : EqDecision Abrupt.
Proof. solve_decision. Defined.

(** How a call of an operation ends for its caller when it does not return:
    with a thrown error object, with the thrown value [undefined] of a
    variable never assigned, or with the end of the process. *)
Inductive Thrown :=
| ThrownUndefined
| ThrownError (e : JsError)
| ProcessExit (code : Z) (printed : string).

#[global] Instance Thrown_eq_dec : EqDecision Thrown.
Proof. solve_decision. Defined.

Definition uncaught (a : Abrupt) : Thrown :=
  match a with
  | Throw e => ThrownError e
  | Exit code printed => ProcessExit code printed
  end.

(** An error of the driver, thrown. *)
Definition thrownFromDriver (e : DriverError) : Abrupt := Throw (fromDriver e).

Definition instanceof (e : JsError) (c : ErrorClass) : bool :=
  bool_decide (cls e = c).

(** [e.message += suffix], [e.getElementError = true], [e.stack = s]. *)
Definition appendMessage (e : JsError) (suffix : string) : JsError :=
  mkJsError (cls e) (message e +:+ suffix) (stack e) (getElementError e).
Definition markGetElementError (e : JsError) : JsError :=
  mkJsError (cls e) (message e) (stack e) true.
Definition setStack (e : JsError) (s : option string) : JsError :=
  mkJsError (cls e) (message e) s (getElementError e).

(** ** TimeConstants *)

Module TimeConstants.
Definition Zero : Z := 0.
Definition QuaterASecond : Z := 250.
Definition HalfASecond : Z := 500.
Definition FiveSeconds : Z := 5000.
Definition TenSeconds : Z := 10000.
Definition HalfAMinute : Z := 30000.
Definition QuarterAMinute : Z := 15000.
Definition Minute : Z := 60000.
End TimeConstants.

(** ** getCleanStack *)

Definition newline : ascii := "010"%char.

Fixpoint split_lines (s : string) : list string :=
  match s with
  | EmptyString => [EmptyString]
  | String c rest =>
      if Ascii.eqb c newline then EmptyString :: split_lines rest
      else match split_lines rest with
           | line :: lines => String c line :: lines
           | [] => [String c EmptyString]
           end
  end.

Fixpoint includes (s needle : string) : bool :=
  String.prefix needle s ||
  match s with
  | EmptyString => false
  | String _ rest => includes rest needle
  end.

Definition getCleanStack (stack : option string) : option string :=
  match stack with
  | Some s =>
      if String.eqb s "" then None
      else Some (String.concat (String newline "")
                   (filter (fun line => includes line "driver.ts" = false)
                           (split_lines s)))
  | None => None
  end.

(** Truthiness of [string | null | undefined]. *)
Definition truthy (m : option string) : bool :=
  match m with
  | Some s => negb (String.eqb s "")
  | None => false
  end.

(** ** Config and the capability table

    [Config] reads two things: [argv.browser] of the parsed command line and
    the configuration store behind [config.has] and [config.get].  A store
    value is a string, a boolean or an array of strings; [config.get] throws
    for a key that is not defined.  [process.exit(1)] ends the process: the
    getter completes with [Exits]. *)

Inductive ConfigValue :=
| CString (s : string)
| CBool (b : bool)
| CList (items : list string).

#[global] Instance ConfigValue_eq_dec : EqDecision ConfigValue.
Proof. solve_decision. Defined.

Record ConfigEnv := mkConfigEnv {
  argv_browser : option string;
  store : gmap string ConfigValue
}.

Inductive Completion (A : Type) :=
| Returns (a : A)
| Throws (e : JsError)
| Exits (code : Z) (printed : string).
Arguments Returns {A}.
Arguments Throws {A}.
Arguments Exits {A}.

Definition quote : string := String "034"%char "".

Definition config_has (env : ConfigEnv) (key : string) : bool :=
  bool_decide (is_Some (store env !! key)).

Definition config_get (env : ConfigEnv) (key : string) : Completion ConfigValue :=
  match store env !! key with
  | Some v => Returns v
  | None =>
      Throws (mkJsError (OtherErrorClass "Error")
                ("Configuration property " +:+ quote +:+ key +:+ quote
                   +:+ " is not defined") None false)
  end.

(** Truthiness of a value, and the property key it stands for on the left of
    [in]. *)
Definition isTruthy (v : ConfigValue) : bool :=
  match v with
  | CString s => negb (String.eqb s "")
  | CBool b => b
  | CList _ => true
  end.

Definition toPropertyKey (v : ConfigValue) : string :=
  match v with
  | CString s => s
  | CBool true => "true"
  | CBool false => "false"
  | CList items => String.concat "," items
  end.

(** [enum BrowsersAliases]: the keys of the object the enum compiles to. *)
Definition BrowsersAliases : list string :=
  ["chrome"; "firefox"; "edge"; "ie"; "safari"].

(** The property names every plain object inherits from [Object.prototype];
    [in] finds them as it finds own keys. *)
Definition ObjectPrototypeKeys : list string :=
  ["constructor"; "__defineGetter__"; "__defineSetter__"; "hasOwnProperty";
   "__lookupGetter__"; "__lookupSetter__"; "isPrototypeOf";
   "propertyIsEnumerable"; "toString"; "valueOf"; "__proto__"; "toLocaleString"].

(** [key in BrowsersAliases] *)
Definition inBrowsersAliases (key : string) : bool :=
  bool_decide (key ∈ BrowsersAliases ++ ObjectPrototypeKeys).

Definition browserNotSet : string :=
  "Browser name dos not set please add: NODE_CONFIG={" +:+ quote +:+ "browser"
    +:+ quote +:+ ":[chrome | firefox | ...]} as env param or "
    +:+ "--browser=[chrome | firefox | ...] for npm -- --browser=".
Definition browserIncorrect : string :=
  "Browser name is incorrect please use one of these:".
Definition browsersNotSet : string :=
  "Browsers dos not set please add: NODE_CONFIG={" +:+ quote +:+ "browsers"
    +:+ quote +:+ ":[chrome, firefox, ...]} as env param".
Definition browsersIncorrect : string :=
  "Browser name is incorrect please use these values:".

Module Config.

(** [static get browser()] *)
Definition browser (env : ConfigEnv) : Completion ConfigValue :=
  if negb (truthy (argv_browser env)) && negb (config_has env "browser")
  then Exits 1 browserNotSet
  else
    match (if truthy (argv_browser env)
           then Returns (CString (default "" (argv_browser env)))
           else config_get env "browser") with
    | Returns browser =>
        if inBrowsersAliases (toPropertyKey browser) then Returns browser
        else Exits 1 browserIncorrect
    | other => other
    end.

(** [static get browsers()]: [forEach] exits at the first name that is not
    in the enum; on a value that is no array, [forEach] is no function. *)
Definition browsers (env : ConfigEnv) : Completion (list string) :=
  if negb (config_has env "browsers") then Exits 1 browsersNotSet
  else
    match config_get env "browsers" with
    | Returns (CList items) =>
        if forallb inBrowsersAliases items then Returns items
        else Exits 1 browsersIncorrect
    | Returns _ =>
        Throws (mkJsError TypeError "browsers.forEach is not a function" None false)
    | Throws e => Throws e
    | Exits code printed => Exits code printed
    end.

(** [static get directConnect()] *)
Definition directConnect (env : ConfigEnv) : Completion ConfigValue :=
  if negb (config_has env "directConnect") then Returns (CBool false)
  else config_get env "directConnect".

(** [static get seleniumHubUrl()] *)
Definition seleniumHubUrl (env : ConfigEnv) : Completion ConfigValue :=
  match directConnect env with
  | Returns direct =>
      if isTruthy direct then Returns (CString "")
      else config_get env "seleniumHubUrl"
  | other => other
  end.

(** [static get webDriverProxy()] *)
Definition webDriverProxy (env : ConfigEnv) : Completion ConfigValue :=
  if negb (config_has env "webDriverProxy") then Returns (CString "")
  else config_get env "webDriverProxy".

End Config.

(** [const capabilities] *)
Record Capability := mkCapability {
  browserName : string;
  acceptInsecureCerts : option bool
}.

Definition capabilities : gmap string Capability :=
  list_to_map
    [("chrome", mkCapability "chrome" (Some true));
     ("firefox", mkCapability "firefox" (Some true));
     ("edge", mkCapability "MicrosoftEdge" None);
     ("ie", mkCapability "internet explorer" None);
     ("safari", mkCapability "safari" None)].

(** ** class Driver: the session

    What selenium does for the facade: build a session from a server URL, a
    proxy and a capability payload; maximize its window; and the calls on a
    session that the facade passes through. *)

Definition ThenableWebDriver := nat.
Definition Capabilities := nat.

Record Selenium (World : Type) := mkSelenium {
  Builder_build :
    ConfigValue -> ConfigValue -> option Capability -> World -> ThenableWebDriver * World;
  window_maximize : ThenableWebDriver -> World -> World;
  session_quit : ThenableWebDriver -> World -> (DriverError + unit) * World;
  session_getCapabilities : ThenableWebDriver -> World -> (DriverError + Capabilities) * World;
  session_get : ThenableWebDriver -> string -> World -> (DriverError + unit) * World
}.
Arguments Builder_build {World}.
Arguments window_maximize {World}.
Arguments session_quit {World}.
Arguments session_getCapabilities {World}.
Arguments session_get {World}.

Record DriverObject := mkDriverObject {
  _driver : option ThenableWebDriver;
  _capabilities : option Capabilities
}.

Section Facade.
Context {World : Type} (selenium : Selenium World).

(** [get driver()]: builds the session on the first access, stores it, and
    maximizes the window through the getter, which then finds it stored. *)
Definition Driver_driver (this : DriverObject) (env : ConfigEnv) (w : World)
  : Completion ThenableWebDriver * DriverObject * World :=
  match _driver this with
  | Some session => (Returns session, this, w)
  | None =>
      match Config.seleniumHubUrl env with
      | Returns server =>
          match Config.webDriverProxy env with
          | Returns proxy =>
              match Config.browser env with
              | Returns browser =>
                  let '(session, w1) :=
                    Builder_build selenium server proxy
                      (capabilities !! toPropertyKey browser) w in
                  let this1 := mkDriverObject (Some session) (_capabilities this) in
                  (Returns session, this1, window_maximize selenium session w1)
              | Throws e => (Throws e, this, w)
              | Exits code printed => (Exits code printed, this, w)
              end
          | Throws e => (Throws e, this, w)
          | Exits code printed => (Exits code printed, this, w)
          end
      | Throws e => (Throws e, this, w)
      | Exits code printed => (Exits code printed, this, w)
      end
  end.

(** [get(url)] *)
Definition Driver_get (this : DriverObject) (env : ConfigEnv) (url : string)
    (w : World) : Completion unit * DriverObject * World :=
  match Driver_driver this env w with
  | (Returns session, this1, w1) =>
      match session_get selenium session url w1 with
      | (inr _, w2) => (Returns tt, this1, w2)
      | (inl e, w2) => (Throws (fromDriver e), this1, w2)
      end
  | (Throws e, this1, w1) => (Throws e, this1, w1)
  | (Exits code printed, this1, w1) => (Exits code printed, this1, w1)
  end.

(** [async quit()] *)
Definition Driver_quit (this : DriverObject) (w : World)
  : Completion unit * DriverObject * World :=
  match _driver this with
  | Some session =>
      match session_quit selenium session w with
      | (inr _, w1) => (Returns tt, this, w1)
      | (inl e, w1) => (Throws (fromDriver e), this, w1)
      end
  | None => (Returns tt, this, w)
  end.

(** [async getCapabilities()] *)
Definition Driver_getCapabilities (this : DriverObject) (env : ConfigEnv) (w : World)
  : Completion Capabilities * DriverObject * World :=
  match _capabilities this with
  | Some cached => (Returns cached, this, w)
  | None =>
      match Driver_driver this env w with
      | (Returns session, this1, w1) =>
          match session_getCapabilities selenium session w1 with
          | (inr fetched, w2) =>
              (Returns fetched, mkDriverObject (_driver this1) (Some fetched), w2)
          | (inl e, w2) => (Throws (fromDriver e), this1, w2)
          end
      | (Throws e, this1, w1) => (Throws e, this1, w1)
      | (Exits code printed, this1, w1) => (Exits code printed, this1, w1)
      end
  end.

End Facade.

(** ** The world outside

    [Node] is what [findElement] is called on: the session itself or an
    element found earlier.  There is one session, the one that the getter
    [driver] of the Driver object returns; the operations reach it through
    that getter. *)

Definition WebElement := nat.

Inductive Node :=
| Session
| Elem (id : WebElement).

#[global] Instance Node_eq_dec : EqDecision Node.
Proof. solve_decision. Defined.

Record Runtime (World : Type) := mkRuntime {
  (** [+new Date()], in milliseconds *)
  dateNow : World -> Z * World;
  (** [new Error().stack] *)
  newErrorStack : World -> option string;
  (** [process.argv] and the configuration store, as [Config] reads them *)
  configuration : World -> ConfigEnv;
  (** the session builder and the window of selenium-webdriver *)
  selenium : Selenium World;
  (** the fields of [const driver = new Driver()], read and written; class
      Driver is not exported, so this is the Driver object of every element *)
  driverObject : World -> DriverObject;
  setDriverObject : DriverObject -> World -> World;
  driver_findElement : Node -> By -> World -> (DriverError + WebElement) * World;
  driver_findElements : Node -> By -> World -> (DriverError + list WebElement) * World;
  driver_isEnabled : WebElement -> World -> (DriverError + bool) * World;
  driver_isDisplayed : WebElement -> World -> (DriverError + bool) * World;
  driver_isSelected : WebElement -> World -> (DriverError + bool) * World;
  driver_click : WebElement -> World -> (DriverError + unit) * World;
  driver_sendKeys : WebElement -> list string -> World -> (DriverError + unit) * World;
  driver_clear : WebElement -> World -> (DriverError + unit) * World;
  driver_submit : WebElement -> World -> (DriverError + unit) * World;
  driver_getText : WebElement -> World -> (DriverError + string) * World;
  (** [getAttribute] answers [null] for an attribute the element lacks *)
  driver_getAttribute : WebElement -> string -> World -> (DriverError + option string) * World;
  driver_executeScript : string -> list string -> World -> (DriverError + string) * World
}.

Arguments dateNow {World}.
Arguments newErrorStack {World}.
Arguments configuration {World}.
Arguments selenium {World}.
Arguments driverObject {World}.
Arguments setDriverObject {World}.
Arguments driver_findElement {World}.
Arguments driver_findElements {World}.
Arguments driver_isEnabled {World}.
Arguments driver_isDisplayed {World}.
Arguments driver_isSelected {World}.
Arguments driver_click {World}.
Arguments driver_sendKeys {World}.
Arguments driver_clear {World}.
Arguments driver_submit {World}.
Arguments driver_getText {World}.
Arguments driver_getAttribute {World}.
Arguments driver_executeScript {World}.

(** ** Effects

    [Eff E A]: a computation over the world that returns an [A] or ends
    with an [E].  [Fueled E A]: the same for code with a retry loop in it. *)

Definition Eff (World E A : Type) := World -> (E + A) * World.
Definition Fueled (World E A : Type) := nat -> World -> option ((E + A) * World).

Definition ret {World E A} (a : A) : Eff World E A := fun w => (inr a, w).
Definition throw {World E A} (e : E) : Eff World E A := fun w => (inl e, w).
Definition bind {World E A B} (m : Eff World E A) (k : A -> Eff World E B)
  : Eff World E B :=
  fun w => match m w with
           | (inr a, w') => k a w'
           | (inl e, w') => (inl e, w')
           end.
Definition mapError {World E E' A} (f : E -> E') (m : Eff World E A) : Eff World E' A :=
  fun w => match m w with
           | (inr a, w') => (inr a, w')
           | (inl e, w') => (inl (f e), w')
           end.

(** [try { m } catch (e) { handler }]: the block sees what [m] throws, and
    does not run when [m] ends the process. *)
Definition tryCatch {World A} (m : Eff World Abrupt A)
    (handler : JsError -> Eff World Abrupt A) : Eff World Abrupt A :=
  fun w => match m w with
           | (inr a, w') => (inr a, w')
           | (inl (Throw e), w') => handler e w'
           | (inl (Exit code printed), w') => (inl (Exit code printed), w')
           end.

Definition bindF {World E A B} (m : Fueled World E A) (k : A -> Eff World E B)
  : Fueled World E B :=
  fun fuel w => match m fuel w with
                | Some (inr a, w') => Some (k a w')
                | Some (inl e, w') => Some (inl e, w')
                | None => None
                end.

Declare Scope eff_scope.
Delimit Scope eff_scope with eff.
Notation "'let*' x ':=' m 'in' k" := (bind m (fun x => k))
  (at level 10, x name, m at level 100, k at level 200) : eff_scope.
Notation "'let*' ' p ':=' m 'in' k" := (bind m (fun x => match x with p => k end))
  (at level 10, p pattern, m at level 100, k at level 200) : eff_scope.

(** What a [catch] block of a retry loop does with the error it caught. *)
Inductive CatchAction (A : Type) :=
| Rethrow (e : JsError)
| ReturnValue (a : A)
| Remember (e : JsError).
Arguments Rethrow {A}.
Arguments ReturnValue {A}.
Arguments Remember {A}.

(** ** Comparing with [assert.deepStrictEqual]

    On the values the program compares (booleans, numbers, strings, arrays of
    strings) deep strict equality is equality of the values;
    [mismatchMessage] is the message of the AssertionError it throws. *)

Class DeepStrictEqual (T : Type) := {
  deepStrictEqual_dec :: EqDecision T;
  mismatchMessage : T -> T -> string
}.

Definition deepStrictEqual {T} {equal : DeepStrictEqual T} (actual expected : T)
  : JsError + unit :=
  if decide (actual = expected) then inr tt
  else inl (mkJsError AssertionError (mismatchMessage actual expected) None false).

(** The options bag of [retryExpect]; [message] defaults to [null],
    [concatenateMessages] to [false]. *)
Record expectOptions := mkExpectOptions {
  opt_message : option string;
  opt_timeout : option Z;
  opt_concatenateMessages : bool
}.

(** An [Element] object: its own locator and its chain. *)
Record Element := mkElement {
  ownLocator : option By;
  chainedLocators : list By
}.

(** [Array.prototype.sort()] without a comparator on an array of strings:
    ascending by code units.  The order is total on strings, so what the
    engine's algorithm returns is the one sorted arrangement. *)
Definition Array_sort (l : list string) : list string := merge_sort String.le l.

Definition Partial (World E A : Type) := World -> option ((E + A) * World).

(** A retry-until-success loop of [driver.ts]: every such loop is the same
    [while] around a [try] body and a [catch] block.  The body answers
    [Some a] when it executes [return a], [None] when it falls through to the
    next iteration; the [catch] block sees the stack preserved at entry. *)
Record RetryLoop (World : Type) := mkRetryLoop {
  loop_result : Type;
  loop_timeout : option Z;
  loop_try : Eff World Abrupt (option loop_result);
  loop_catch : option string -> JsError -> CatchAction loop_result
}.
Arguments mkRetryLoop {World loop_result}.
Arguments loop_result {World}.
Arguments loop_timeout {World}.
Arguments loop_try {World}.
Arguments loop_catch {World}.

Section Program.
Context {World : Type} (rt : Runtime World).

Local Open Scope eff_scope.

(** [timeoutCondition(timeoutMs = TimeConstants.QuarterAMinute)]: reads the
    clock once and returns the predicate, which reads it again on every
    call. *)
Definition timeoutCondition (timeoutMs : option Z)
  : World -> (World -> bool * World) * World :=
  fun w =>
    let timeoutMs := default TimeConstants.QuarterAMinute timeoutMs in
    let '(dt, w') := dateNow rt w in
    (fun w1 => let '(t, w2) := dateNow rt w1 in (Z.leb (t - dt)%Z timeoutMs, w2), w').

(** The [while (retryTimeoutCondition()) { try {..} catch (e) {..} }
    throw currentException] of the retry-until-success functions.  An
    attempt that ends the process ends the call with it. *)
Fixpoint retryLoop {A} (retryTimeoutCondition : World -> bool * World)
    (try : Eff World Abrupt (option A)) (catch : JsError -> CatchAction A)
    (currentException : Thrown) (fuel : nat) (w : World)
  : option ((Thrown + A) * World) :=
  match fuel with
  | O => None
  | S fuel' =>
      let '(within, w1) := retryTimeoutCondition w in
      if within then
        match try w1 with
        | (inr (Some a), w2) => Some (inr a, w2)
        | (inr None, w2) =>
            retryLoop retryTimeoutCondition try catch currentException fuel' w2
        | (inl (Throw e), w2) =>
            match catch e with
            | Rethrow e' => Some (inl (ThrownError e'), w2)
            | ReturnValue a => Some (inr a, w2)
            | Remember e' =>
                retryLoop retryTimeoutCondition try catch (ThrownError e') fuel' w2
            end
        | (inl (Exit code printed), w2) => Some (inl (ProcessExit code printed), w2)
        end
      else Some (inl currentException, w1)
  end.

Definition runRetryLoop (L : RetryLoop World)
  : Fueled World Thrown (loop_result L) :=
  fun fuel w =>
    let preservedStack := getCleanStack (newErrorStack rt w) in
    let '(retryTimeoutCondition, w0) := timeoutCondition (loop_timeout L) w in
    retryLoop retryTimeoutCondition (loop_try L) (loop_catch L preservedStack)
              ThrownUndefined fuel w0.

(** *** The [catch] blocks *)

(** [if (e instanceof InvalidSelectorError) throw e;
     e.stack = preservedStack; currentException = e;] *)
Definition catchRetry {A} (preservedStack : option string) (e : JsError)
  : CatchAction A :=
  if instanceof e InvalidSelectorError then Rethrow e
  else Remember (setStack e preservedStack).

(** The same with
    [if (!e.getElementError) e.message += `\nLocators chain: ${chain}`]. *)
Definition catchAnnotate {A} (chainedLocators : list By)
    (preservedStack : option string) (e : JsError) : CatchAction A :=
  if instanceof e InvalidSelectorError then Rethrow e
  else
    let e1 := if getElementError e then e
              else appendMessage e (chainContext chainedLocators) in
    Remember (setStack e1 preservedStack).

(** The [catch] block of [waitForNotPresent]. *)
Definition catchNotPresent (preservedStack : option string) (e : JsError)
  : CatchAction unit :=
  if instanceof e InvalidSelectorError then Rethrow e
  else if instanceof e NoSuchElementError || instanceof e StaleElementReferenceError
  then ReturnValue tt
  else Remember (setStack e preservedStack).

(** The [catch] block of [Driver.retryExecuteScript]. *)
Definition catchEverything {A} (preservedStack : option string) (e : JsError)
  : CatchAction A :=
  Remember e.

(** *** The session

    [this._webDriver.driver], [driver.driver] and, inside class Driver,
    [this.driver]: the getter [driver] of the Driver object, evaluated on the
    object as the world holds it.  The getter assigns to the object only
    when it has built a session; the object is written back then. *)
Definition webDriver_driver : Eff World Abrupt ThenableWebDriver :=
  fun w =>
    let '(completion, this1, w1) :=
      Driver_driver (selenium rt) (driverObject rt w) (configuration rt w) w in
    match completion with
    | Returns session =>
        (inr session,
         match _driver (driverObject rt w) with
         | Some _ => w1
         | None => setDriverObject rt this1 w1
         end)
    | Throws e => (inl (Throw e), w1)
    | Exits code printed => (inl (Exit code printed), w1)
    end.

(** *** Driver.retryExecuteScript *)
Definition retryExecuteScript_loop (script : string) (var_args : list string)
  : RetryLoop World :=
  mkRetryLoop None
    (let* _ := webDriver_driver in
     let* r := mapError thrownFromDriver (driver_executeScript rt script var_args) in
     ret (Some r))
    catchEverything.
Definition retryExecuteScript (script : string) (var_args : list string) :=
  runRetryLoop (retryExecuteScript_loop script var_args).

(** *** class Element *)

Definition getSlicedLocators (this : Element) (index : nat) : list By :=
  take (S index) (chainedLocators this).

(** A method of [WebElement] called on what [getElement] returned; for an
    empty chain that is the session, which has no such method. *)
Definition onElement {A} (method : string)
    (f : WebElement -> World -> (DriverError + A) * World) (n : Node)
  : Eff World Abrupt A :=
  match n with
  | Elem id => mapError thrownFromDriver (f id)
  | Session =>
      throw (Throw (mkJsError TypeError (method +:+ " is not a function") None false))
  end.

(** [getElement]: the [for (const [index, locator] of
    this.chainedLocators.entries())] loop, from [index] on. *)
Fixpoint getElement_from (this : Element) (index : nat) (rest : list By)
    (localDriver : Node) : Eff World Abrupt Node :=
  match rest with
  | [] => ret localDriver
  | locator :: rest' =>
      let* found :=
        tryCatch (mapError thrownFromDriver (driver_findElement rt localDriver locator))
          (fun e =>
             throw (Throw (markGetElementError
                             (appendMessage e
                                (chainContext (getSlicedLocators this index)))))) in
      getElement_from this (S index) rest' (Elem found)
  end.

(** [let localDriver = this._webDriver.driver] comes first and stands outside
    the [try] of the loop: what the getter throws leaves [getElement] as it
    is. *)
Definition getElement (this : Element) : Eff World Abrupt Node :=
  let* _ := webDriver_driver in
  getElement_from this 0 (chainedLocators this) Session.

Definition retryGetElement_loop (this : Element) (timeout : option Z)
  : RetryLoop World :=
  mkRetryLoop timeout
    (let* el := getElement this in ret (Some el))
    catchRetry.
Definition retryGetElement (this : Element) (timeout : option Z) :=
  runRetryLoop (retryGetElement_loop this timeout).

Definition Element_findElements (this : Element) (locator : By)
  : Eff World Abrupt (list WebElement) :=
  tryCatch
    (let* el := getElement this in
     mapError thrownFromDriver (driver_findElements rt el locator))
    (fun e =>
       throw (Throw (markGetElementError
                       (appendMessage e (chainContext (chainedLocators this)
                                           +:+ " All: " +:+ By_toString locator))))).

Definition click_loop (this : Element) (retryTimeout : option Z)
  : RetryLoop World :=
  mkRetryLoop retryTimeout
    (let* webElement := getElement this in
     let* enabled := onElement "isEnabled" (driver_isEnabled rt) webElement in
     if (enabled : bool) then
       let* _ := onElement "click" (driver_click rt) webElement in
       ret (Some tt)
     else ret None)
    (catchAnnotate (chainedLocators this)).
Definition click (this : Element) (retryTimeout : option Z) :=
  runRetryLoop (click_loop this retryTimeout).

Definition clickTillAttributeEqual_loop (this : Element) (name value : string)
  : RetryLoop World :=
  mkRetryLoop None
    (let* webElement := getElement this in
     let* _ := onElement "click" (driver_click rt) webElement in
     let* attribute :=
       onElement "getAttribute" (fun el => driver_getAttribute rt el name) webElement in
     match attribute with
     | Some s => if includes s value then ret (Some tt) else ret None
     | None => throw (Throw (mkJsError TypeError
                               "Cannot read property 'includes' of null" None false))
     end)
    (catchAnnotate (chainedLocators this)).
Definition clickTillAttributeEqual (this : Element) (name value : string) :=
  runRetryLoop (clickTillAttributeEqual_loop this name value).

Definition isPresent (this : Element) : Eff World Abrupt bool :=
  tryCatch (let* _ := getElement this in ret true)
    (fun e =>
       if instanceof e NoSuchElementError || instanceof e StaleElementReferenceError
       then ret false
       else throw (Throw e)).

Definition clickTillElementPresent_loop (this element : Element)
  : RetryLoop World :=
  mkRetryLoop None
    (let* webElement := getElement this in
     let* _ := onElement "click" (driver_click rt) webElement in
     let* present := isPresent element in
     if (present : bool) then ret (Some tt) else ret None)
    (catchAnnotate (chainedLocators this)).
Definition clickTillElementPresent (this element : Element) :=
  runRetryLoop (clickTillElementPresent_loop this element).

Definition clickSendKeys_loop (this : Element) (var_args : list string)
  : RetryLoop World :=
  mkRetryLoop None
    (let* webElement := getElement this in
     let* enabled := onElement "isEnabled" (driver_isEnabled rt) webElement in
     if (enabled : bool) then
       let* _ := onElement "click" (driver_click rt) webElement in
       let* _ := onElement "sendKeys"
                   (fun el => driver_sendKeys rt el var_args) webElement in
       ret (Some tt)
     else ret None)
    (catchAnnotate (chainedLocators this)).
Definition clickSendKeys (this : Element) (var_args : list string) :=
  runRetryLoop (clickSendKeys_loop this var_args).

(** The single-shot operations: [(await this.retryGetElement()).m(..)]. *)
Definition afterRetryGetElement {A} (this : Element) (method : string)
    (f : WebElement -> World -> (DriverError + A) * World)
  : Fueled World Thrown A :=
  bindF (retryGetElement this None)
        (fun el => mapError uncaught (onElement method f el)).

Definition simpleClick (this : Element) :=
  afterRetryGetElement this "click" (driver_click rt).
Definition clear (this : Element) :=
  afterRetryGetElement this "clear" (driver_clear rt).
Definition getText (this : Element) :=
  afterRetryGetElement this "getText" (driver_getText rt).
Definition getAttribute (this : Element) (attributeName : string) :=
  afterRetryGetElement this "getAttribute"
    (fun el => driver_getAttribute rt el attributeName).
Definition submit (this : Element) :=
  afterRetryGetElement this "submit" (driver_submit rt).
Definition isSelected (this : Element) :=
  afterRetryGetElement this "isSelected" (driver_isSelected rt).

Definition retryIsDisplayed_loop (this : Element) : RetryLoop World :=
  mkRetryLoop None
    (let* el := getElement this in
     let* displayed := onElement "isDisplayed" (driver_isDisplayed rt) el in
     ret (Some displayed))
    (catchAnnotate (chainedLocators this)).
Definition retryIsDisplayed (this : Element) :=
  runRetryLoop (retryIsDisplayed_loop this).

Definition retryGetText_loop (this : Element) : RetryLoop World :=
  mkRetryLoop None
    (let* el := getElement this in
     let* text := onElement "getText" (driver_getText rt) el in
     ret (Some text))
    (catchAnnotate (chainedLocators this)).
Definition retryGetText (this : Element) :=
  runRetryLoop (retryGetText_loop this).

Definition waitForVisible_loop (this : Element) : RetryLoop World :=
  mkRetryLoop None
    (let* webElement := getElement this in
     let* displayed := onElement "isDisplayed" (driver_isDisplayed rt) webElement in
     if (displayed : bool) then ret (Some tt) else ret None)
    (catchAnnotate (chainedLocators this)).
Definition waitForVisible (this : Element) :=
  runRetryLoop (waitForVisible_loop this).

Definition waitForNotPresent_loop (this : Element) : RetryLoop World :=
  mkRetryLoop None
    (let* _ := getElement this in ret None)
    catchNotPresent.
Definition waitForNotPresent (this : Element) :=
  runRetryLoop (waitForNotPresent_loop this).

Definition retryFindElements_loop (this : Element) (locator : By)
  : RetryLoop World :=
  mkRetryLoop None
    (let* el := getElement this in
     let* found := mapError thrownFromDriver (driver_findElements rt el locator) in
     ret (Some found))
    catchRetry.
Definition retryFindElements (this : Element) (locator : By) :=
  runRetryLoop (retryFindElements_loop this locator).

(** [all(element)]: one retried resolution, one [findElements]. *)
Definition all (this : Element) (locator : By) : Fueled World Thrown (list WebElement) :=
  bindF (retryGetElement this None)
        (fun el => mapError (fun e => ThrownError (fromDriver e))
                     (driver_findElements rt el locator)).

(** *** retryExpect *)

(** The argument of [new assert.AssertionError(..)] after the loop: the
    [message] property reads [exception.message] unless a truthy [message]
    was given without [concatenateMessages], and reading a property of
    [undefined] throws a TypeError before any AssertionError is built.
    [exception] is [undefined] or the error of a failed comparison, nothing
    else is assigned to it. *)
Definition undefinedMessageError : JsError :=
  mkJsError TypeError "Cannot read property 'message' of undefined" None false.

Definition expectFailure (msg : option string) (concatenateMessages : bool)
    (exception : Thrown) (newStack : option string) : Thrown :=
  let assertion m := ThrownError (mkJsError AssertionError m newStack false) in
  if truthy msg then
    if concatenateMessages then
      match exception with
      | ThrownError e =>
          assertion (String.concat (String newline "")
                       [default "" msg; message e])
      | _ => ThrownError undefinedMessageError
      end
    else assertion (default "" msg)
  else
    match exception with
    | ThrownError e => assertion (message e)
    | _ => ThrownError undefinedMessageError
    end.

Fixpoint retryExpect_loop {T} {equal : DeepStrictEqual T}
    (retryTimeoutCondition : World -> bool * World)
    (foo : Partial World Thrown T) (expected : T)
    (msg : option string) (concatenateMessages : bool)
    (exception : Thrown) (fuel : nat) (w : World)
  : option ((Thrown + unit) * World) :=
  match fuel with
  | O => None
  | S fuel' =>
      let '(within, w1) := retryTimeoutCondition w in
      if within then
        match foo w1 with
        | None => None
        | Some (inl thrown, w2) => Some (inl thrown, w2)
        | Some (inr actual, w2) =>
            match deepStrictEqual actual expected with
            | inr _ => Some (inr tt, w2)
            | inl e =>
                retryExpect_loop retryTimeoutCondition foo expected
                  msg concatenateMessages (ThrownError e) fuel' w2
            end
        end
      else
        Some (inl (expectFailure msg concatenateMessages exception
                     (newErrorStack rt w1)), w1)
  end.

Definition retryExpect {T} {equal : DeepStrictEqual T}
    (foo : Partial World Thrown T) (expected : T) (options : expectOptions)
  : Fueled World Thrown unit :=
  fun fuel w =>
    let '(retryTimeoutCondition, w0) := timeoutCondition (opt_timeout options) w in
    retryExpect_loop retryTimeoutCondition foo expected
      (opt_message options) (opt_concatenateMessages options)
      ThrownUndefined fuel w0.

(** What [assert.deepStrictEqual] does on the types the program
    compares is the assertion library's. *)
Context {equal_bool : DeepStrictEqual bool}
        {equal_string : DeepStrictEqual string}
        {equal_attribute : DeepStrictEqual (option string)}
        {equal_count : DeepStrictEqual nat}
        {equal_texts : DeepStrictEqual (list string)}.

(** [`${failMessage}`] of an optional string. *)
Definition template (s : option string) : string := default "undefined" s.

Definition expectMessage (failMessage : option string) (what : string)
    (this : Element) : option string :=
  Some (template failMessage +:+ String newline what
          +:+ locators_toString (chainedLocators this)).

Definition expectToBeSelected (this : Element) (failMessage : option string)
  : Fueled World Thrown unit :=
  fun fuel =>
    retryExpect (isSelected this fuel) true
      (mkExpectOptions (expectMessage failMessage " Expected element to be selected " this)
         None false) fuel.

Definition expectToBeUnSelected (this : Element) (failMessage : option string)
  : Fueled World Thrown unit :=
  fun fuel =>
    retryExpect (isSelected this fuel) false
      (mkExpectOptions (expectMessage failMessage " Expected element to be unselected " this)
         None false) fuel.

Definition expectToBePresent (this : Element) (failMessage : option string)
    (timeout : option Z) : Fueled World Thrown unit :=
  retryExpect (fun w => Some (mapError uncaught (isPresent this) w)) true
    (mkExpectOptions (expectMessage failMessage " Expected element to be present " this)
       timeout false).

Definition expectToBeNotPresent (this : Element) (failMessage : option string)
    (timeout : option Z) : Fueled World Thrown unit :=
  retryExpect (fun w => Some (mapError uncaught (isPresent this) w)) false
    (mkExpectOptions (expectMessage failMessage " Expected element not to be present " this)
       timeout false).

Definition expectToBeNotDisplayed (this : Element) (failMessage : option string)
  : Fueled World Thrown unit :=
  fun fuel =>
    retryExpect (retryIsDisplayed this fuel) false
      (mkExpectOptions (expectMessage failMessage " Expected element not to be displayed " this)
         None false) fuel.

Definition expectTextToBe (this : Element) (expectedText : string)
    (failMessage : option string) : Fueled World Thrown unit :=
  fun fuel =>
    retryExpect (retryGetText this fuel) expectedText
      (mkExpectOptions failMessage None true) fuel.

(** [getAttribute('value')] may answer [null], which equals no string. *)
Definition expectInputValueToBe (this : Element) (expectedText : string)
    (failMessage : option string) : Fueled World Thrown unit :=
  fun fuel =>
    retryExpect (getAttribute this "value" fuel) (Some expectedText)
      (mkExpectOptions failMessage None true) fuel.

(** *** class ChainedElementAll *)

Record ChainedElementAll := mkChainedElementAll {
  internalElement : Element;
  locator : By
}.

Definition ChainedElementAll_findElements (this : ChainedElementAll) :=
  retryFindElements (internalElement this) (locator this).

(** [for (let webElement of ..) elementTextList.push(await webElement.getText())] *)
Fixpoint getTexts (webElements : list WebElement) : Eff World Abrupt (list string) :=
  match webElements with
  | [] => ret []
  | webElement :: rest =>
      let* text := mapError thrownFromDriver (driver_getText rt webElement) in
      let* texts := getTexts rest in
      ret (text :: texts)
  end.

Definition getSortedElementsTexts (this : ChainedElementAll)
  : Eff World Abrupt (list string) :=
  let* found := Element_findElements (internalElement this) (locator this) in
  let* elementTextList := getTexts found in
  ret (Array_sort elementTextList).

Definition retryGetSortedElementsTexts_loop (this : ChainedElementAll)
  : RetryLoop World :=
  mkRetryLoop None
    (let* texts := getSortedElementsTexts this in ret (Some texts))
    catchRetry.
Definition retryGetSortedElementsTexts (this : ChainedElementAll) :=
  runRetryLoop (retryGetSortedElementsTexts_loop this).

(** [expectSortedListToEqual(list, failMessage)].  [list_] is the caller's
    array, passed by reference: [heap] holds the arrays of strings by
    address, and [list.sort()] sorts the array at that address where it
    stands and evaluates to the same array. *)
Definition expectSortedListToEqual (this : ChainedElementAll) (list_ : nat)
    (failMessage : option string) (fuel : nat)
    (heap : list (list string)) (w : World)
  : list (list string) * option ((Thrown + unit) * World) :=
  let heap' := alter Array_sort list_ heap in
  (heap',
   retryExpect (retryGetSortedElementsTexts this fuel) (default [] (heap' !! list_))
     (mkExpectOptions failMessage None true) fuel w).

Definition expectElementsCountToBe (this : ChainedElementAll) (expectedCount : nat)
    (failMessage : option string) : Fueled World Thrown unit :=
  fun fuel =>
    retryExpect
      (fun w => match ChainedElementAll_findElements this fuel w with
                | Some (inr found, w') => Some (inr (length found), w')
                | Some (inl t, w') => Some (inl t, w')
                | None => None
                end)
      expectedCount
      (mkExpectOptions failMessage None true) fuel.

(** *** class ElementAll *)

Record ElementAll := mkElementAll { all_ownLocator : By }.

(** [driver.driver.findElements(this.ownLocator)] *)
Definition ElementAll_findElements (this : ElementAll)
  : Eff World Abrupt (list WebElement) :=
  let* _ := webDriver_driver in
  mapError thrownFromDriver (driver_findElements rt Session (all_ownLocator this)).

Definition ElementAll_getSortedElementsTexts (this : ElementAll)
  : Eff World Abrupt (list string) :=
  let* _ := webDriver_driver in
  let* found := mapError thrownFromDriver
                  (driver_findElements rt Session (all_ownLocator this)) in
  let* elementTextList := getTexts found in
  ret (Array_sort elementTextList).

Definition ElementAll_retryGetSortedElementsTexts_loop (this : ElementAll)
  : RetryLoop World :=
  mkRetryLoop None
    (let* texts := ElementAll_getSortedElementsTexts this in ret (Some texts))
    catchRetry.
Definition ElementAll_retryGetSortedElementsTexts (this : ElementAll) :=
  runRetryLoop (ElementAll_retryGetSortedElementsTexts_loop this).

Definition expectSortedListToBe (this : ElementAll) (list_ : nat)
    (failMessage : option string) (fuel : nat)
    (heap : list (list string)) (w : World)
  : list (list string) * option ((Thrown + unit) * World) :=
  let heap' := alter Array_sort list_ heap in
  (heap',
   retryExpect (ElementAll_retryGetSortedElementsTexts this fuel)
     (default [] (heap' !! list_))
     (mkExpectOptions failMessage None true) fuel w).

End Program.

(** ** The factories *)

Definition dollar_dollar (cssSelector : string) : ElementAll :=
  mkElementAll (ByFactory.css cssSelector).
Definition xx (xpath : string) : ElementAll :=
  mkElementAll (ByFactory.css xpath).

(** ** Element objects and their arrays

    An [Element] object holds its chain in an array of its own.  [ArrayHeap]
    holds the arrays of locators by address; [new Element(..)] and the
    deriving methods allocate in it.  The record [Element] above is what the
    operations read of an object: [elementAt]. *)

Abbreviation ArrayHeap := (list (list By)).

Record ElementObject := mkElementObject {
  object_ownLocator : option By;
  object_chainedLocators : nat
}.

Definition arrayAt (heap : ArrayHeap) (array : nat) : list By :=
  default [] (heap !! array).

(** An array literal, or the [[]] of a field initialiser. *)
Definition newArray (items : list By) (heap : ArrayHeap) : nat * ArrayHeap :=
  (length heap, heap ++ [items]).

(** [array.push(...items)] *)
Definition Array_push (array : nat) (items : list By) (heap : ArrayHeap) : ArrayHeap :=
  alter (fun l => l ++ items) array heap.

(** [constructor(locator: Locator | Locator[])] *)
Definition Element_constructor (locator : By + nat) (heap : ArrayHeap)
  : ElementObject * ArrayHeap :=
  let '(chainedLocators, heap1) := newArray [] heap in
  match locator with
  | inr array =>
      let heap2 := Array_push chainedLocators (arrayAt heap1 array) heap1 in
      (mkElementObject (last (arrayAt heap2 chainedLocators)) chainedLocators, heap2)
  | inl locator =>
      let heap2 := Array_push chainedLocators [locator] heap1 in
      (mkElementObject (Some locator) chainedLocators, heap2)
  end.

Definition currentLocator (this : ElementObject) : JsError + By :=
  match object_ownLocator this with
  | Some l => inr l
  | None => inl (mkJsError TypeError "Locator is null" None false)
  end.

(** [$(cssSelector)]: [new Element([...this.chainedLocators, By.css(cssSelector)])] *)
Definition Element_dollar (this : ElementObject) (cssSelector : string)
    (heap : ArrayHeap) : ElementObject * ArrayHeap :=
  let '(spread, heap1) :=
    newArray (arrayAt heap (object_chainedLocators this) ++ [ByFactory.css cssSelector])
             heap in
  Element_constructor (inr spread) heap1.

Definition Element_xpath (this : ElementObject) (xpath : string)
    (heap : ArrayHeap) : ElementObject * ArrayHeap :=
  let '(spread, heap1) :=
    newArray (arrayAt heap (object_chainedLocators this) ++ [ByFactory.xpath xpath])
             heap in
  Element_constructor (inr spread) heap1.

(** [element(locator: Locator | Element)] *)
Definition Element_element (this : ElementObject) (locator : By + ElementObject)
    (heap : ArrayHeap) : (JsError + ElementObject) * ArrayHeap :=
  match locator with
  | inr other =>
      match currentLocator other with
      | inr l =>
          let '(spread, heap1) :=
            newArray (arrayAt heap (object_chainedLocators this) ++ [l]) heap in
          let '(obj, heap2) := Element_constructor (inr spread) heap1 in
          (inr obj, heap2)
      | inl e => (inl e, heap)
      end
  | inl l =>
      let '(spread, heap1) :=
        newArray (arrayAt heap (object_chainedLocators this) ++ [l]) heap in
      let '(obj, heap2) := Element_constructor (inr spread) heap1 in
      (inr obj, heap2)
  end.

Definition dollar (cssSelector : string) (heap : ArrayHeap) :=
  Element_constructor (inl (ByFactory.css cssSelector)) heap.
Definition xpath (xpath : string) (heap : ArrayHeap) :=
  Element_constructor (inl (ByFactory.xpath xpath)) heap.
Definition element (locator : By) (heap : ArrayHeap) :=
  Element_constructor (inl locator) heap.

Definition elementAt (heap : ArrayHeap) (obj : ElementObject) : Element :=
  mkElement (object_ownLocator obj) (arrayAt heap (object_chainedLocators obj)).

(** [obj.chainedLocators] read in [heap]. *)
Definition chainOf (heap : ArrayHeap) (obj : ElementObject) : list By :=
  chainedLocators (elementAt heap obj).

(** [$$(cssSelector)] and [xpathAll(xpath)] of an element. *)
Definition Element_dollar_dollar (this : Element) (cssSelector : string)
  : ChainedElementAll :=
  mkChainedElementAll this (ByFactory.css cssSelector).
Definition Element_xpathAll (this : Element) (xpath : string) : ChainedElementAll :=
  mkChainedElementAll this (ByFactory.xpath xpath).

(** ** A scripted world

    A driver that answers from a script, one answer a call, and a clock that
    advances by [latency] on every driver call and by [tick] on every
    reading.  The examples below run the program in it. *)

Inductive Response :=
| RElement (id : WebElement)
| RElements (ids : list WebElement)
| RBool (b : bool)
| RText (s : string)
| RAttribute (s : option string)
| RDone
| RError (e : DriverError).

Record Script := mkScript {
  clock : Z;
  tick : Z;
  latency : Z;
  callStack : option string;
  responses : list Response
}.

Definition scriptError : DriverError :=
  mkDriverError (OtherErrorClass "ScriptError") "unexpected call" None.

Definition answer {A} (pick : Response -> option A) (w : Script)
  : (DriverError + A) * Script :=
  match responses w with
  | [] => (inl scriptError, w)
  | r :: rest =>
      let w' := mkScript (clock w + latency w)%Z (tick w) (latency w) (callStack w) rest in
      match r with
      | RError e => (inl e, w')
      | _ => match pick r with
             | Some a => (inr a, w')
             | None => (inl scriptError, w')
             end
      end
  end.

(** A selenium whose calls leave the script alone. *)
Definition scriptedSelenium : Selenium Script :=
  mkSelenium Script
    (fun _ _ _ w => (0%nat, w))
    (fun _ w => w)
    (fun _ w => (inr tt, w))
    (fun _ w => (inr 0%nat, w))
    (fun _ _ w => (inr tt, w)).

(** The scripted world with the configuration [env] and the Driver object
    [object], neither of which changes. *)
Definition scriptedWith (env : ConfigEnv) (object : DriverObject) : Runtime Script :=
  mkRuntime Script
    (fun w => (clock w,
               mkScript (clock w + tick w)%Z (tick w) (latency w) (callStack w) (responses w)))
    callStack
    (fun _ => env)
    scriptedSelenium
    (fun _ => object)
    (fun _ w => w)
    (fun _ _ => answer (fun r => match r with RElement id => Some id | _ => None end))
    (fun _ _ => answer (fun r => match r with RElements ids => Some ids | _ => None end))
    (fun _ => answer (fun r => match r with RBool b => Some b | _ => None end))
    (fun _ => answer (fun r => match r with RBool b => Some b | _ => None end))
    (fun _ => answer (fun r => match r with RBool b => Some b | _ => None end))
    (fun _ => answer (fun r => match r with RDone => Some tt | _ => None end))
    (fun _ _ => answer (fun r => match r with RDone => Some tt | _ => None end))
    (fun _ => answer (fun r => match r with RDone => Some tt | _ => None end))
    (fun _ => answer (fun r => match r with RDone => Some tt | _ => None end))
    (fun _ => answer (fun r => match r with RText s => Some s | _ => None end))
    (fun _ _ => answer (fun r => match r with RAttribute s => Some s | _ => None end))
    (fun _ _ => answer (fun r => match r with RText s => Some s | _ => None end)).

(** The world of the examples: the session is built already. *)
Definition scripted : Runtime Script :=
  scriptedWith (mkConfigEnv (Some "chrome") ∅) (mkDriverObject (Some 0%nat) None).

(** The same driver in a process that has built no session and is configured
    with a browser but with no hub URL: the getter [driver] throws. *)
Definition unconfigured : Runtime Script :=
  scriptedWith (mkConfigEnv (Some "chrome") ∅) (mkDriverObject None None).

(** And in a process configured with a hub URL but with no browser, on the
    command line or in the store: the getter ends the process. *)
Definition browserless : Runtime Script :=
  scriptedWith (mkConfigEnv None {[ "seleniumHubUrl" := CString "http://hub:4444" ]})
               (mkDriverObject None None).

(** Deep equality by the decidable equality of the type, with a fixed
    message. *)
Definition plainEqual (T : Type) `{EqDecision T} : DeepStrictEqual T :=
  {| mismatchMessage := fun _ _ => "Expected values to be strictly deep-equal" |}.

(** The worlds and elements of the examples. *)
Module Examples.
Definition noSuchElement : DriverError :=
  mkDriverError NoSuchElementError "no such element" None.
Definition invalidSelector : DriverError :=
  mkDriverError InvalidSelectorError "invalid selector" None.
Definition staleElement : DriverError :=
  mkDriverError StaleElementReferenceError "stale element reference" None.
Definition unknownError : DriverError :=
  mkDriverError WebDriverError "unknown error" None.
Definition link : Element :=
  mkElement (Some (ByFactory.css "a")) [ByFactory.css "a"].
Definition worldAt (time : Z) (responses : list Response) : Script :=
  mkScript time 0 100 (Some "Error
    at Element.click (driver.ts:208)
    at test.ts:1") responses.
Definition world : list Response -> Script := worldAt 0.
End Examples.

(** ** Runs of a loop

    [retrying cond try catch n exc w exc' w']: from the world [w], with
    [currentException = exc], the loop makes [n] iterations in a row, each
    within the budget and each ending without leaving the loop, and arrives
    at [w'] with [currentException = exc'].  [failing] is the same with every
    attempt throwing an error that the [catch] block keeps; [waiting] the
    same with every attempt falling through without an error.  In none of
    them does an attempt end the process. *)

Section Runs.
Context {World A : Type}.
Variable retryTimeoutCondition : World -> bool * World.
Variable try : Eff World Abrupt (option A).
Variable catch : JsError -> CatchAction A.

Inductive retrying : nat -> Thrown -> World -> Thrown -> World -> Prop :=
| retrying_done exc w : retrying 0 exc w exc w
| retrying_fallthrough n exc w w1 w2 exc' w' :
    retryTimeoutCondition w = (true, w1) ->
    try w1 = (inr None, w2) ->
    retrying n exc w2 exc' w' ->
    retrying (S n) exc w exc' w'
| retrying_caught n exc w w1 e e' w2 exc' w' :
    retryTimeoutCondition w = (true, w1) ->
    try w1 = (inl (Throw e), w2) ->
    catch e = Remember e' ->
    retrying n (ThrownError e') w2 exc' w' ->
    retrying (S n) exc w exc' w'.

Inductive failing : nat -> Thrown -> World -> Thrown -> World -> Prop :=
| failing_done exc w : failing 0 exc w exc w
| failing_caught n exc w w1 e e' w2 exc' w' :
    retryTimeoutCondition w = (true, w1) ->
    try w1 = (inl (Throw e), w2) ->
    catch e = Remember e' ->
    failing n (ThrownError e') w2 exc' w' ->
    failing (S n) exc w exc' w'.

Inductive waiting : nat -> World -> World -> Prop :=
| waiting_done w : waiting 0 w w
| waiting_fallthrough n w w1 w2 w' :
    retryTimeoutCondition w = (true, w1) ->
    try w1 = (inr None, w2) ->
    waiting n w2 w' ->
    waiting (S n) w w'.

(** [unsuccessful n w w']: [n] iterations in a row, each within the budget,
    in none of which the body reaches a [return]: it falls through, or it
    throws an error that is no InvalidSelectorError.  What the [catch] block
    does with such an error is not part of the relation. *)
Inductive unsuccessful : nat -> World -> World -> Prop :=
| unsuccessful_done w : unsuccessful 0 w w
| unsuccessful_fallthrough n w w1 w2 w' :
    retryTimeoutCondition w = (true, w1) ->
    try w1 = (inr None, w2) ->
    unsuccessful n w2 w' ->
    unsuccessful (S n) w w'
| unsuccessful_thrown n w w1 e w2 w' :
    retryTimeoutCondition w = (true, w1) ->
    try w1 = (inl (Throw e), w2) ->
    cls e <> InvalidSelectorError ->
    unsuccessful n w2 w' ->
    unsuccessful (S n) w w'.
End Runs.

(** [mismatching cond foo expected n w exc w']: the loop of [retryExpect]
    makes [n] iterations in a row, each within the budget, in each of which
    [foo] returns a value that does not equal [expected]; [exc] is the
    mismatch kept last. *)
Inductive mismatching {World T} {equal : DeepStrictEqual T}
    (retryTimeoutCondition : World -> bool * World)
    (foo : Partial World Thrown T) (expected : T)
  : nat -> Thrown -> World -> Thrown -> World -> Prop :=
| mismatching_done exc w : mismatching retryTimeoutCondition foo expected 0 exc w exc w
| mismatching_next n exc w w1 actual w2 exc' w' :
    retryTimeoutCondition w = (true, w1) ->
    foo w1 = Some (inr actual, w2) ->
    actual <> expected ->
    mismatching retryTimeoutCondition foo expected n
      (ThrownError (mkJsError AssertionError (mismatchMessage actual expected) None false))
      w2 exc' w' ->
    mismatching retryTimeoutCondition foo expected (S n) exc w exc' w'.

(** The nine retry-until-success operations of class [Element]. *)
Inductive RetryUntilSuccess {World} (rt : Runtime World) : RetryLoop World -> Prop :=
| op_retryGetElement this timeout :
    RetryUntilSuccess rt (retryGetElement_loop rt this timeout)
| op_click this retryTimeout :
    RetryUntilSuccess rt (click_loop rt this retryTimeout)
| op_clickSendKeys this var_args :
    RetryUntilSuccess rt (clickSendKeys_loop rt this var_args)
| op_clickTillAttributeEqual this name value :
    RetryUntilSuccess rt (clickTillAttributeEqual_loop rt this name value)
| op_clickTillElementPresent this element :
    RetryUntilSuccess rt (clickTillElementPresent_loop rt this element)
| op_waitForVisible this :
    RetryUntilSuccess rt (waitForVisible_loop rt this)
| op_retryIsDisplayed this :
    RetryUntilSuccess rt (retryIsDisplayed_loop rt this)
| op_retryGetText this :
    RetryUntilSuccess rt (retryGetText_loop rt this)
| op_retryFindElements this locator :
    RetryUntilSuccess rt (retryFindElements_loop rt this locator).

(** The seven of them whose [catch] block appends the chain to an error not
    yet marked, each with its element and with what its [try] body does once
    the chain is resolved. *)
Inductive Annotating {World} (rt : Runtime World)
  : forall L : RetryLoop World,
      Element -> (Node -> Eff World Abrupt (option (loop_result L))) -> Prop :=
| annotating_click this retryTimeout :
    Annotating rt (click_loop rt this retryTimeout) this
      (fun webElement =>
         let* enabled := onElement "isEnabled" (driver_isEnabled rt) webElement in
         if (enabled : bool) then
           let* _ := onElement "click" (driver_click rt) webElement in
           ret (Some tt)
         else ret None)%eff
| annotating_clickSendKeys this var_args :
    Annotating rt (clickSendKeys_loop rt this var_args) this
      (fun webElement =>
         let* enabled := onElement "isEnabled" (driver_isEnabled rt) webElement in
         if (enabled : bool) then
           let* _ := onElement "click" (driver_click rt) webElement in
           let* _ := onElement "sendKeys"
                       (fun el => driver_sendKeys rt el var_args) webElement in
           ret (Some tt)
         else ret None)%eff
| annotating_clickTillAttributeEqual this name value :
    Annotating rt (clickTillAttributeEqual_loop rt this name value) this
      (fun webElement =>
         let* _ := onElement "click" (driver_click rt) webElement in
         let* attribute :=
           onElement "getAttribute" (fun el => driver_getAttribute rt el name)
                     webElement in
         match attribute with
         | Some s => if includes s value then ret (Some tt) else ret None
         | None => throw (Throw (mkJsError TypeError
                                   "Cannot read property 'includes' of null"
                                   None false))
         end)%eff
| annotating_clickTillElementPresent this element :
    Annotating rt (clickTillElementPresent_loop rt this element) this
      (fun webElement =>
         let* _ := onElement "click" (driver_click rt) webElement in
         let* present := isPresent rt element in
         if (present : bool) then ret (Some tt) else ret None)%eff
| annotating_waitForVisible this :
    Annotating rt (waitForVisible_loop rt this) this
      (fun webElement =>
         let* displayed := onElement "isDisplayed" (driver_isDisplayed rt) webElement in
         if (displayed : bool) then ret (Some tt) else ret None)%eff
| annotating_retryIsDisplayed this :
    Annotating rt (retryIsDisplayed_loop rt this) this
      (fun el =>
         let* displayed := onElement "isDisplayed" (driver_isDisplayed rt) el in
         ret (Some displayed))%eff
| annotating_retryGetText this :
    Annotating rt (retryGetText_loop rt this) this
      (fun el =>
         let* text := onElement "getText" (driver_getText rt) el in
         ret (Some text))%eff.

(** [neverEnabled rt this cond n w w']: [n] iterations of [click] in a row,
    each within the budget, in each of which the chain resolves to an element
    that reports it is not enabled. *)
Inductive neverEnabled {World} (rt : Runtime World) (this : Element)
    (retryTimeoutCondition : World -> bool * World)
  : nat -> World -> World -> Prop :=
| neverEnabled_done w : neverEnabled rt this retryTimeoutCondition 0 w w
| neverEnabled_next n w w1 el w2 w3 w' :
    retryTimeoutCondition w = (true, w1) ->
    getElement rt this w1 = (inr (Elem el), w2) ->
    driver_isEnabled rt el w2 = (inr false, w3) ->
    neverEnabled rt this retryTimeoutCondition n w3 w' ->
    neverEnabled rt this retryTimeoutCondition (S n) w w'.

(** [resolutionFailure rt this e]: [e] is what [getElement] throws when the
    driver fails on the locator at [index] of the chain: the driver's error
    with the locators consumed so far appended to its message, and marked. *)
Definition resolutionFailure {World} (rt : Runtime World) (this : Element)
    (e : JsError) : Prop :=
  exists index locator node raw w0 w',
    chainedLocators this !! index = Some locator
    /\ driver_findElement rt node locator w0 = (inl raw, w')
    /\ e = markGetElementError
             (appendMessage (fromDriver raw)
                (chainContext (getSlicedLocators this index))).

(** [sessionFailure rt e]: [e] is what the getter [driver] throws when it
    cannot build the session. *)
Definition sessionFailure {World} (rt : Runtime World) (e : JsError) : Prop :=
  exists w0 w', webDriver_driver rt w0 = (inl (Throw e), w').

(** [neverFound rt this cond n w w']: [n] iterations in a row, each within
    the budget, in each of which the resolution of the chain fails with a
    not-found or a stale-reference error. *)
Inductive neverFound {World} (rt : Runtime World) (this : Element)
    (retryTimeoutCondition : World -> bool * World)
  : nat -> World -> World -> Prop :=
| neverFound_done w : neverFound rt this retryTimeoutCondition 0 w w
| neverFound_next n w w1 e w2 w' :
    retryTimeoutCondition w = (true, w1) ->
    getElement rt this w1 = (inl (Throw e), w2) ->
    cls e = NoSuchElementError \/ cls e = StaleElementReferenceError ->
    neverFound rt this retryTimeoutCondition n w2 w' ->
    neverFound rt this retryTimeoutCondition (S n) w w'.

(** An Element object as the constructor leaves it: its array is allocated
    and its own locator is the last of its chain. *)
Definition wellFormed (heap : ArrayHeap) (obj : ElementObject) : Prop :=
  (object_chainedLocators obj < length heap)%nat
  /\ object_ownLocator obj = last (chainOf heap obj).

(** Whether a string holds a line break. *)
Fixpoint hasNewline (s : string) : bool :=
  match s with
  | EmptyString => false
  | String c rest => Ascii.eqb c newline || hasNewline rest
  end.

(** The lines of a stack that [getCleanStack] keeps. *)
Definition keptLines (s : string) : list string :=
  filter (fun line => includes line "driver.ts" = false) (split_lines s).

(** A selenium that keeps a log of the calls made to it; sessions are
    numbered by the length of the log at their creation. *)
Definition logged : Selenium (list string) :=
  mkSelenium (list string)
    (fun server proxy capability log =>
       (length log,
        log ++ ["build " +:+ toPropertyKey server +:+ " "
                  +:+ from_option browserName "none" capability]))
    (fun session log => log ++ ["maximize"])
    (fun session log => (inr tt, log ++ ["quit"]))
    (fun session log => (inr 7, log ++ ["getCapabilities"]))
    (fun session url log => (inr tt, log ++ ["get " +:+ url])).

(** * Properties *)

Section RetryEngine.
Context {World : Type} (rt : Runtime World).

Lemma retryLoop_retrying {A} cond (try : Eff World Abrupt (option A)) catch
    n exc w exc' w' :
  retrying cond try catch n exc w exc' w' ->
  forall k, retryLoop cond try catch exc (n + k) w
            = retryLoop cond try catch exc' k w'.
Proof.
  induction 1 as [| n exc w w1 w2 exc' w' Hc Ht _ IH
                  | n exc w w1 e e' w2 exc' w' Hc Ht Hk _ IH]; intros k.
  - reflexivity.
  - cbn [Nat.add retryLoop]. rewrite Hc, Ht. apply IH.
  - cbn [Nat.add retryLoop]. rewrite Hc, Ht, Hk. apply IH.
Qed.

Lemma retryLoop_starved {A} cond (try : Eff World Abrupt (option A)) catch
    n exc w exc' w' :
  retrying cond try catch n exc w exc' w' ->
  forall k, (k <= n)%nat -> retryLoop cond try catch exc k w = None.
Proof.
  induction 1 as [| n exc w w1 w2 exc' w' Hc Ht _ IH
                  | n exc w w1 e e' w2 exc' w' Hc Ht Hk _ IH]; intros k Hle.
  - assert (k = 0%nat) as -> by lia. reflexivity.
  - destruct k as [|k]; [reflexivity|].
    cbn [retryLoop]. rewrite Hc, Ht. apply IH. lia.
  - destruct k as [|k]; [reflexivity|].
    cbn [retryLoop]. rewrite Hc, Ht, Hk. apply IH. lia.
Qed.

Lemma failing_retrying {A} cond (try : Eff World Abrupt (option A)) catch
    n exc w exc' w' :
  failing cond try catch n exc w exc' w' ->
  retrying cond try catch n exc w exc' w'.
Proof. induction 1; eauto using @retrying. Qed.

Lemma waiting_retrying {A} cond (try : Eff World Abrupt (option A)) catch
    n exc w w' :
  waiting cond try n w w' ->
  retrying cond try catch n exc w exc w'.
Proof. induction 1; eauto using @retrying. Qed.

Lemma retryLoop_elapsed {A} cond (try : Eff World Abrupt (option A)) catch
    exc k w w1 :
  cond w = (false, w1) ->
  retryLoop cond try catch exc (S k) w = Some (inl exc, w1).
Proof. intros Hc. cbn [retryLoop]. by rewrite Hc. Qed.

End RetryEngine.

Section RetryUntilSuccessProperties.
Context {World : Type} (rt : Runtime World).

Lemma retrying_app {A} cond (try : Eff World Abrupt (option A)) catch
    n m exc w exc1 w1 exc2 w2 :
  retrying cond try catch n exc w exc1 w1 ->
  retrying cond try catch m exc1 w1 exc2 w2 ->
  retrying cond try catch (n + m) exc w exc2 w2.
Proof. induction 1; intros; cbn [Nat.add]; eauto using @retrying. Qed.

Lemma catchRetry_invalid_selector {A} st e :
  cls e = InvalidSelectorError -> @catchRetry A st e = Rethrow e.
Proof.
  intros Hc. unfold catchRetry, instanceof.
  by rewrite bool_decide_eq_true_2.
Qed.

Lemma catchAnnotate_invalid_selector {A} chain st e :
  cls e = InvalidSelectorError -> @catchAnnotate A chain st e = Rethrow e.
Proof.
  intros Hc. unfold catchAnnotate, instanceof.
  by rewrite bool_decide_eq_true_2.
Qed.

Lemma RetryUntilSuccess_rethrows L st e :
  RetryUntilSuccess rt L ->
  cls e = InvalidSelectorError ->
  loop_catch L st e = Rethrow e.
Proof.
  intros HL Hc.
  destruct HL; cbn [loop_catch retryGetElement_loop click_loop clickSendKeys_loop
    clickTillAttributeEqual_loop clickTillElementPresent_loop waitForVisible_loop
    retryIsDisplayed_loop retryGetText_loop retryFindElements_loop];
    auto using @catchRetry_invalid_selector, @catchAnnotate_invalid_selector.
Qed.

Lemma catchRetry_keeps {A} st e :
  cls e <> InvalidSelectorError -> @catchRetry A st e = Remember (setStack e st).
Proof.
  intros Hc. unfold catchRetry, instanceof.
  by rewrite bool_decide_eq_false_2.
Qed.

Lemma catchAnnotate_keeps {A} chain st e :
  cls e <> InvalidSelectorError ->
  @catchAnnotate A chain st e
  = Remember (setStack (if getElementError e then e
                        else appendMessage e (chainContext chain)) st).
Proof.
  intros Hc. unfold catchAnnotate, instanceof.
  by rewrite bool_decide_eq_false_2.
Qed.

Lemma Annotating_shape L this action :
  Annotating rt L this action ->
  loop_try L = bind (getElement rt this) action
  /\ loop_catch L = catchAnnotate (chainedLocators this).
Proof. destruct 1; split; reflexivity. Qed.

(** What the [catch] block of each of the nine operations does with an
    error that is no invalid selector: it keeps it, after replacing its stack
    and, in the seven annotating operations, appending the chain to an error
    not yet marked. *)
Lemma RetryUntilSuccess_keeps L st e :
  RetryUntilSuccess rt L ->
  cls e <> InvalidSelectorError ->
  exists e',
    loop_catch L st e = Remember e'
    /\ (e' = setStack e st
        \/ exists chain,
             getElementError e = false
             /\ e' = setStack (appendMessage e (chainContext chain)) st).
Proof.
  intros HL Hc.
  destruct HL; cbn [loop_catch retryGetElement_loop click_loop clickSendKeys_loop
    clickTillAttributeEqual_loop clickTillElementPresent_loop waitForVisible_loop
    retryIsDisplayed_loop retryGetText_loop retryFindElements_loop];
    rewrite ?catchRetry_keeps, ?catchAnnotate_keeps by done;
    (eexists; split; [reflexivity|]);
    try (by left);
    (destruct (getElementError e) eqn:Hmark; [by left | right; eauto]).
Qed.

Lemma unsuccessful_retrying L st cond n w w' :
  RetryUntilSuccess rt L ->
  unsuccessful cond (loop_try L) n w w' ->
  forall exc, exists exc',
    retrying cond (loop_try L) (loop_catch L st) n exc w exc' w'.
Proof.
  intros HL. induction 1 as [| n w w1 w2 w' Hc Ht _ IH
                              | n w w1 e w2 w' Hc Ht Hcls _ IH]; intros exc.
  - eexists. constructor.
  - destruct (IH exc) as [exc' Hrest]. eauto using @retrying.
  - destruct (RetryUntilSuccess_keeps L st e HL Hcls) as (e' & Hk & _).
    destruct (IH (ThrownError e')) as [exc' Hrest]. eauto using @retrying.
Qed.


(** C2.  For each of the nine retry-until-success operations: after any
    number [n] of iterations that stayed in the loop, when the next attempt
    is within the budget and throws an InvalidSelectorError, the call throws
    that very error at the world the attempt left: no further check of the
    clock, no further attempt.  With [n = 0] it is the first attempt and the
    only one. *)
Theorem invalid_selector_is_thrown_at_once
    (L : RetryLoop World) (w : World) cond w0 n exc wn w1 e w2 :
  RetryUntilSuccess rt L ->
  timeoutCondition rt (loop_timeout L) w = (cond, w0) ->
  retrying cond (loop_try L) (loop_catch L (getCleanStack (newErrorStack rt w)))
           n ThrownUndefined w0 exc wn ->
  cond wn = (true, w1) ->
  loop_try L w1 = (inl (Throw e), w2) ->
  cls e = InvalidSelectorError ->
  forall fuel,
    runRetryLoop rt L fuel w
    = if decide (n < fuel)%nat then Some (inl (ThrownError e), w2) else None.
Proof.
  intros HL Htc Hrun Hc He Hcls fuel.
  unfold runRetryLoop. rewrite Htc.
  case_decide as Hfuel.
  - replace fuel with (n + S (fuel - n - 1))%nat by lia.
    rewrite (retryLoop_retrying _ _ _ _ _ _ _ _ Hrun).
    cbn [retryLoop]. rewrite Hc, He.
    by rewrite (RetryUntilSuccess_rethrows L _ e HL Hcls).
  - eapply retryLoop_starved; [exact Hrun|lia].
Qed.

End RetryUntilSuccessProperties.

Section RetryExpectProperties.
Context {World : Type} (rt : Runtime World).
Context {T : Type} {equal : DeepStrictEqual T}.

Lemma deepStrictEqual_same (v : T) : deepStrictEqual v v = inr tt.
Proof. unfold deepStrictEqual. by rewrite decide_True. Qed.

Lemma deepStrictEqual_differ (actual expected : T) :
  actual <> expected ->
  deepStrictEqual actual expected
  = inl (mkJsError AssertionError (mismatchMessage actual expected) None false).
Proof. intros Hne. unfold deepStrictEqual. by rewrite decide_False. Qed.

Lemma retryExpect_loop_mismatching cond (foo : Partial World Thrown T) expected
    msg cat n exc w exc' w' :
  mismatching cond foo expected n exc w exc' w' ->
  forall k, retryExpect_loop rt cond foo expected msg cat exc (n + k) w
            = retryExpect_loop rt cond foo expected msg cat exc' k w'.
Proof.
  induction 1 as [| n exc w w1 actual w2 exc' w' Hc Hfoo Hne _ IH]; intros k.
  - reflexivity.
  - cbn [Nat.add retryExpect_loop].
    rewrite Hc, Hfoo, (deepStrictEqual_differ _ _ Hne). apply IH.
Qed.

Lemma retryExpect_loop_starved cond (foo : Partial World Thrown T) expected
    msg cat n exc w exc' w' :
  mismatching cond foo expected n exc w exc' w' ->
  forall k, (k <= n)%nat ->
            retryExpect_loop rt cond foo expected msg cat exc k w = None.
Proof.
  induction 1 as [| n exc w w1 actual w2 exc' w' Hc Hfoo Hne _ IH]; intros k Hle.
  - assert (k = 0%nat) as -> by lia. reflexivity.
  - destruct k as [|k]; [reflexivity|].
    cbn [retryExpect_loop].
    rewrite Hc, Hfoo, (deepStrictEqual_differ _ _ Hne). apply IH. lia.
Qed.

(** C3.  Whatever [foo], the expected value and the options: when the first
    [n] attempts are within the budget and return values that differ from
    [expected], and the next attempt is within the budget and returns
    [expected], [retryExpect] returns at the world that attempt left, so
    [foo] is not called again, and the [n] mismatches have no part in the
    result. *)
Theorem retryExpect_returns_on_first_equal
    (foo : Partial World Thrown T) (expected : T) (options : expectOptions)
    (w : World) cond w0 n exc wn w1 w2 :
  timeoutCondition rt (opt_timeout options) w = (cond, w0) ->
  mismatching cond foo expected n ThrownUndefined w0 exc wn ->
  cond wn = (true, w1) ->
  foo w1 = Some (inr expected, w2) ->
  forall fuel,
    retryExpect rt foo expected options fuel w
    = if decide (n < fuel)%nat then Some (inr tt, w2) else None.
Proof.
  intros Htc Hrun Hc Hfoo fuel.
  unfold retryExpect. rewrite Htc.
  case_decide as Hfuel.
  - replace fuel with (n + S (fuel - n - 1))%nat by lia.
    rewrite (retryExpect_loop_mismatching _ _ _ _ _ _ _ _ _ _ Hrun).
    cbn [retryExpect_loop]. by rewrite Hc, Hfoo, deepStrictEqual_same.
  - eapply retryExpect_loop_starved; [exact Hrun|lia].
Qed.

End RetryExpectProperties.

Section WaitForNotPresent.
Context {World : Type} (rt : Runtime World).

Lemma waitForNotPresent_try_fails this w e w' :
  getElement rt this w = (inl (Throw e), w') ->
  loop_try (waitForNotPresent_loop rt this) w = (inl (Throw e), w').
Proof. intros He. cbn [loop_try waitForNotPresent_loop]. unfold bind. by rewrite He. Qed.

Lemma retryLoop_caught_once {A} cond (try : Eff World Abrupt (option A)) catch
    exc w w1 e e' w2 :
  cond w = (true, w1) -> try w1 = (inl (Throw e), w2) -> catch e = Remember e' ->
  retrying cond try catch 1 exc w (ThrownError e') w2.
Proof. intros. eapply retrying_caught; eauto using @retrying. Qed.

(** C4, as amended.  After any [n] iterations that stayed in the loop, let
    the next attempt be within the budget and the resolution fail with [e].
    A not-found or stale error ends the call with success at once; an
    invalid selector is thrown at once; an error of any other class is kept
    and the loop goes on, and the call throws it only when the next check
    finds the budget elapsed. *)
Theorem waitForNotPresent_on_resolution_failure
    (this : Element) (w : World) cond w0 n exc wn w1 e w2 :
  let L := waitForNotPresent_loop rt this in
  let preservedStack := getCleanStack (newErrorStack rt w) in
  timeoutCondition rt None w = (cond, w0) ->
  retrying cond (loop_try L) (loop_catch L preservedStack)
           n ThrownUndefined w0 exc wn ->
  cond wn = (true, w1) ->
  getElement rt this w1 = (inl (Throw e), w2) ->
  (cls e = NoSuchElementError \/ cls e = StaleElementReferenceError ->
   forall fuel,
     waitForNotPresent rt this fuel w
     = if decide (n < fuel)%nat then Some (inr tt, w2) else None)
  /\ (cls e = InvalidSelectorError ->
      forall fuel,
        waitForNotPresent rt this fuel w
        = if decide (n < fuel)%nat then Some (inl (ThrownError e), w2) else None)
  /\ (cls e <> NoSuchElementError -> cls e <> StaleElementReferenceError ->
      cls e <> InvalidSelectorError ->
      retrying cond (loop_try L) (loop_catch L preservedStack) (n + 1)
               ThrownUndefined w0 (ThrownError (setStack e preservedStack)) w2
      /\ forall w3, cond w2 = (false, w3) ->
         forall fuel,
           waitForNotPresent rt this fuel w
           = if decide (S n < fuel)%nat
             then Some (inl (ThrownError (setStack e preservedStack)), w3)
             else None).
Proof.
  intros L preservedStack Htc Hrun Hc He.
  apply waitForNotPresent_try_fails in He. fold L in He.
  assert (forall fuel, (n < fuel)%nat ->
            waitForNotPresent rt this fuel w
            = match catchNotPresent preservedStack e with
              | Rethrow e' => Some (inl (ThrownError e'), w2)
              | ReturnValue a => Some (inr a, w2)
              | Remember e' =>
                  retryLoop cond (loop_try L) (loop_catch L preservedStack)
                            (ThrownError e') (fuel - n - 1) w2
              end) as Hstep.
  { intros fuel Hfuel. unfold waitForNotPresent, runRetryLoop.
    cbn [loop_timeout waitForNotPresent_loop]. rewrite Htc.
    replace fuel with (n + S (fuel - n - 1))%nat at 1 by lia.
    rewrite (retryLoop_retrying _ _ _ _ _ _ _ _ Hrun).
    cbn [retryLoop]. fold L. rewrite Hc, He. reflexivity. }
  assert (forall fuel, (fuel <= n)%nat -> waitForNotPresent rt this fuel w = None)
    as Hstarved.
  { intros fuel Hfuel. unfold waitForNotPresent, runRetryLoop.
    cbn [loop_timeout waitForNotPresent_loop]. rewrite Htc.
    eapply retryLoop_starved; [exact Hrun|lia]. }
  split; [|split].
  - intros Hcls fuel. case_decide; [|apply Hstarved; lia].
    rewrite Hstep by done. unfold catchNotPresent, instanceof.
    destruct Hcls as [Hcls|Hcls]; rewrite Hcls; reflexivity.
  - intros Hcls fuel. case_decide; [|apply Hstarved; lia].
    rewrite Hstep by done. unfold catchNotPresent, instanceof.
    by rewrite Hcls.
  - intros Hn Hs Hi.
    assert (catchNotPresent preservedStack e = Remember (setStack e preservedStack))
      as Hk.
    { unfold catchNotPresent, instanceof.
      by rewrite !bool_decide_eq_false_2. }
    assert (retrying cond (loop_try L) (loop_catch L preservedStack) (n + 1)
              ThrownUndefined w0 (ThrownError (setStack e preservedStack)) w2)
      as Hmore.
    { eapply retrying_app; [exact Hrun|].
      eapply retryLoop_caught_once; eauto. }
    split; [exact Hmore|].
    intros w3 Hend fuel. unfold waitForNotPresent, runRetryLoop.
    cbn [loop_timeout waitForNotPresent_loop]. rewrite Htc. fold L preservedStack.
    case_decide.
    + replace fuel with ((n + 1) + S (fuel - n - 2))%nat by lia.
      rewrite (retryLoop_retrying _ _ _ _ _ _ _ _ Hmore).
      by apply retryLoop_elapsed.
    + eapply retryLoop_starved; [exact Hmore|lia].
Qed.

End WaitForNotPresent.

Section LocatorChains.

Lemma arrayAt_old heap items array :
  (array < length heap)%nat -> arrayAt (heap ++ [items]) array = arrayAt heap array.
Proof. intros Hlt. unfold arrayAt. by rewrite lookup_app_l. Qed.

Lemma arrayAt_new heap items : arrayAt (heap ++ [items]) (length heap) = items.
Proof.
  unfold arrayAt. rewrite lookup_app_r by lia.
  by rewrite Nat.sub_diag.
Qed.

Lemma Array_push_last heap old items :
  Array_push (length heap) items (heap ++ [old]) = heap ++ [old ++ items].
Proof.
  unfold Array_push. rewrite alter_app_r_alt by lia.
  by rewrite Nat.sub_diag.
Qed.

(** What [new Element(array)] does to the heap: one new array, a copy of
    [array], and nothing else. *)
Lemma Element_constructor_array heap array :
  (array < length heap)%nat ->
  Element_constructor (inr array) heap
  = (mkElementObject (last (arrayAt heap array)) (length heap),
     heap ++ [arrayAt heap array]).
Proof.
  intros Hlt. unfold Element_constructor, newArray.
  rewrite Array_push_last, arrayAt_new, arrayAt_old by done.
  reflexivity.
Qed.

Lemma Element_constructor_locator heap l :
  Element_constructor (inl l) heap
  = (mkElementObject (Some l) (length heap), heap ++ [[l]]).
Proof. unfold Element_constructor, newArray. by rewrite Array_push_last. Qed.

(** [new Element([...chain, l])]: the literal, then the object's array. *)
Lemma derive_spread heap chain l :
  (let '(spread, heap1) := newArray (chain ++ [l]) heap in
   Element_constructor (inr spread) heap1)
  = (mkElementObject (Some l) (S (length heap)),
     heap ++ [chain ++ [l]] ++ [chain ++ [l]]).
Proof.
  unfold newArray.
  rewrite Element_constructor_array by (rewrite length_app; cbn; lia).
  rewrite arrayAt_new, last_snoc, length_app, <- (assoc_L (++)).
  cbn. by rewrite Nat.add_1_r.
Qed.

Lemma Element_dollar_eq this cssSelector heap :
  Element_dollar this cssSelector heap
  = (mkElementObject (Some (ByFactory.css cssSelector)) (S (length heap)),
     heap ++ [arrayAt heap (object_chainedLocators this) ++ [ByFactory.css cssSelector]]
          ++ [arrayAt heap (object_chainedLocators this) ++ [ByFactory.css cssSelector]]).
Proof. apply derive_spread. Qed.

Lemma Element_xpath_eq this expr heap :
  Element_xpath this expr heap
  = (mkElementObject (Some (ByFactory.xpath expr)) (S (length heap)),
     heap ++ [arrayAt heap (object_chainedLocators this) ++ [ByFactory.xpath expr]]
          ++ [arrayAt heap (object_chainedLocators this) ++ [ByFactory.xpath expr]]).
Proof. apply derive_spread. Qed.

Lemma Element_element_eq this l heap :
  Element_element this (inl l) heap
  = (inr (mkElementObject (Some l) (S (length heap))),
     heap ++ [arrayAt heap (object_chainedLocators this) ++ [l]]
          ++ [arrayAt heap (object_chainedLocators this) ++ [l]]).
Proof.
  unfold Element_element.
  pose proof (derive_spread heap (arrayAt heap (object_chainedLocators this)) l) as E.
  destruct (newArray _ heap) as [spread heap1]. by rewrite E.
Qed.

Lemma arrayAt_grown heap more array :
  (array < length heap)%nat -> arrayAt (heap ++ more) array = arrayAt heap array.
Proof. intros Hlt. unfold arrayAt. by rewrite lookup_app_l. Qed.

Lemma arrayAt_second heap x y : arrayAt (heap ++ [x] ++ [y]) (S (length heap)) = y.
Proof.
  unfold arrayAt. rewrite lookup_app_r by lia.
  replace (S (length heap) - length heap)%nat with 1%nat by lia. reflexivity.
Qed.

End LocatorChains.

Section LocatorChainComposition.

(** C7.  [p] is an Element object whose array is allocated in [heap].
    Deriving a child with [$], [xpath] or [element] changes no array that
    existed before, so [p]'s chain reads the same afterwards; the child has
    an array of its own holding [p]'s chain and the new locator.  Deriving
    twice extends [p]'s chain by the two locators in order, and
    [$(a).$(b)] from the document has the chain and the own locator of
    [new Element([By.css(a), By.css(b)])]. *)
Theorem derived_chain_extends_parent_and_leaves_it_alone
    (heap : ArrayHeap) (p : ElementObject) (a b : string) :
  (object_chainedLocators p < length heap)%nat ->
  (let '(c, heap1) := Element_dollar p a heap in
   let '(d, heap2) := Element_dollar c b heap1 in
   (forall array, (array < length heap)%nat ->
      heap1 !! array = heap !! array /\ heap2 !! array = heap !! array)
   /\ chainOf heap1 p = chainOf heap p
   /\ chainOf heap2 p = chainOf heap p
   /\ object_chainedLocators c <> object_chainedLocators p
   /\ object_chainedLocators d <> object_chainedLocators c
   /\ chainOf heap1 c = chainOf heap p ++ [ByFactory.css a]
   /\ chainOf heap2 c = chainOf heap p ++ [ByFactory.css a]
   /\ chainOf heap2 d = chainOf heap p ++ [ByFactory.css a; ByFactory.css b]
   /\ object_ownLocator d = Some (ByFactory.css b))
  /\ (let '(c, heap1) := Element_xpath p a heap in
      (forall array, (array < length heap)%nat -> heap1 !! array = heap !! array)
      /\ chainOf heap1 p = chainOf heap p
      /\ chainOf heap1 c = chainOf heap p ++ [ByFactory.xpath a])
  /\ (forall l : By,
      exists c heap1,
        Element_element p (inl l) heap = (inr c, heap1)
        /\ (forall array, (array < length heap)%nat -> heap1 !! array = heap !! array)
        /\ chainOf heap1 p = chainOf heap p
        /\ chainOf heap1 c = chainOf heap p ++ [l])
  /\ (let '(root, heap1) := dollar a heap in
      let '(d, heap2) := Element_dollar root b heap1 in
      let '(literal, heap3) := newArray [ByFactory.css a; ByFactory.css b] heap2 in
      let '(direct, heap4) := Element_constructor (inr literal) heap3 in
      chainOf heap2 d = [ByFactory.css a; ByFactory.css b]
      /\ elementAt heap4 d = elementAt heap4 direct).
Proof.
  intros Hp. unfold chainOf.
  split; [|split; [|split]].
  - rewrite Element_dollar_eq. rewrite Element_dollar_eq.
    cbn [object_chainedLocators object_ownLocator elementAt chainedLocators].
    set (chain := arrayAt heap (object_chainedLocators p)).
    set (heap1 := heap ++ [chain ++ [ByFactory.css a]] ++ [chain ++ [ByFactory.css a]]).
    assert (length heap1 = S (S (length heap))) as Hlen1.
    { unfold heap1. rewrite !length_app. cbn. lia. }
    assert (arrayAt heap1 (S (length heap)) = chain ++ [ByFactory.css a]) as Hc.
    { apply arrayAt_second. }
    rewrite Hc.
    repeat split.
    + unfold heap1. by rewrite lookup_app_l.
    + rewrite lookup_app_l by lia. unfold heap1. by rewrite lookup_app_l.
    + unfold heap1. by apply arrayAt_grown.
    + rewrite arrayAt_grown by lia. unfold heap1. by apply arrayAt_grown.
    + lia.
    + lia.
    + rewrite arrayAt_grown by lia. exact Hc.
    + rewrite arrayAt_second. by rewrite <- (assoc_L (++)).
  - rewrite Element_xpath_eq.
    cbn [object_chainedLocators elementAt chainedLocators].
    repeat split.
    + intros array Hlt. by rewrite lookup_app_l.
    + by apply arrayAt_grown.
    + apply arrayAt_second.
  - intros l. eexists _, _. split; [apply Element_element_eq|].
    cbn [object_chainedLocators elementAt chainedLocators].
    repeat split.
    + intros array Hlt. by rewrite lookup_app_l.
    + by apply arrayAt_grown.
    + apply arrayAt_second.
  - unfold dollar. rewrite Element_constructor_locator, Element_dollar_eq.
    cbn [object_chainedLocators]. rewrite arrayAt_new.
    unfold newArray.
    rewrite Element_constructor_array by (rewrite !length_app; cbn; lia).
    rewrite arrayAt_new.
    unfold elementAt. cbn [object_chainedLocators object_ownLocator chainedLocators].
    set (heap1 := heap ++ [[ByFactory.css a]]).
    set (chain := [ByFactory.css a] ++ [ByFactory.css b]).
    split.
    + apply arrayAt_second.
    + f_equal. rewrite arrayAt_new.
      rewrite !arrayAt_grown by (rewrite ?length_app; cbn; lia).
      apply arrayAt_second.
Qed.

End LocatorChainComposition.

Section Factories.

(** C6.  What [xx] builds: for every XPath expression [s], the handle's
    own locator is [By.css(s)], strategy "css selector" and not [By.xpath(s)],
    so its [findElements] asks the session for the CSS selector [s]. *)
Theorem xx_locates_by_css_selector (s : string) :
  all_ownLocator (xx s) = ByFactory.css s
  /\ using_ (all_ownLocator (xx s)) = "css selector"
  /\ all_ownLocator (xx s) <> ByFactory.xpath s
  /\ forall World (rt : Runtime World) (w : World),
       ElementAll_findElements rt (xx s) w
       = (let* _ := webDriver_driver rt in
          mapError thrownFromDriver
            (driver_findElements rt Session (ByFactory.css s)))%eff w.
Proof. repeat split. discriminate. Qed.

End Factories.

Section SortedTexts.
Context {World : Type} (rt : Runtime World).
Context {equal_texts : DeepStrictEqual (list string)}.

Lemma Array_sort_Sorted l : Sorted String.le (Array_sort l).
Proof. apply (Sorted_merge_sort String.le). Qed.

Lemma Array_sort_Permutation l : Array_sort l ≡ₚ l.
Proof. apply (merge_sort_Permutation String.le). Qed.

Lemma Array_sort_reordered l1 l2 : l1 ≡ₚ l2 -> Array_sort l1 = Array_sort l2.
Proof.
  intros Hperm. apply (Sorted_unique String.le); try apply Array_sort_Sorted.
  by rewrite !Array_sort_Permutation.
Qed.

Lemma Array_sort_fixes_sorted_only l : Array_sort l = l -> Sorted String.le l.
Proof. intros <-. apply Array_sort_Sorted. Qed.

Lemma retryLoop_returns {A} cond (try : Eff World Abrupt (option A)) catch
    exc k w w1 a w2 :
  cond w = (true, w1) -> try w1 = (inr (Some a), w2) ->
  retryLoop cond try catch exc (S k) w = Some (inr a, w2).
Proof. intros Hc Ht. cbn [retryLoop]. by rewrite Hc, Ht. Qed.

Lemma getSortedElementsTexts_sorts this w found w1 texts w2 :
  Element_findElements rt (internalElement this) (locator this) w = (inr found, w1) ->
  getTexts rt found w1 = (inr texts, w2) ->
  getSortedElementsTexts rt this w = (inr (Array_sort texts), w2).
Proof.
  intros Hf Ht. unfold getSortedElementsTexts, bind. by rewrite Hf, Ht.
Qed.

(** C8.  [getSortedElementsTexts] returns the texts it read sorted: in
    ascending order, a rearrangement of them, and the same list for every
    order of discovery.  And when the first attempt of
    [expectSortedListToEqual] is within both budgets and reads [texts], the
    call succeeds for every expected array that is a rearrangement of
    [texts]. *)
Theorem sorted_texts_ignore_discovery_order :
  (forall (this : ChainedElementAll) (w : World) found w1 texts w2,
     Element_findElements rt (internalElement this) (locator this) w = (inr found, w1) ->
     getTexts rt found w1 = (inr texts, w2) ->
     getSortedElementsTexts rt this w = (inr (Array_sort texts), w2)
     /\ Sorted String.le (Array_sort texts)
     /\ Array_sort texts ≡ₚ texts
     /\ forall texts', texts' ≡ₚ texts -> Array_sort texts' = Array_sort texts)
  /\ (forall (this : ChainedElementAll) (list_ : nat) failMessage
             (heap : list (list string)) (w : World)
             cond w0 w1 cond' w2 w3 found w4 texts w5 expected,
        timeoutCondition rt None w = (cond, w0) ->
        cond w0 = (true, w1) ->
        timeoutCondition rt None w1 = (cond', w2) ->
        cond' w2 = (true, w3) ->
        Element_findElements rt (internalElement this) (locator this) w3
        = (inr found, w4) ->
        getTexts rt found w4 = (inr texts, w5) ->
        heap !! list_ = Some expected ->
        expected ≡ₚ texts ->
        forall fuel, (0 < fuel)%nat ->
          snd (expectSortedListToEqual rt this list_ failMessage fuel heap w)
          = Some (inr tt, w5)).
Proof.
  split.
  - intros this w found w1 texts w2 Hf Ht.
    split; [by eapply getSortedElementsTexts_sorts|].
    split; [apply Array_sort_Sorted|].
    split; [apply Array_sort_Permutation|].
    intros texts'. apply Array_sort_reordered.
  - intros this list_ failMessage heap w cond w0 w1 cond' w2 w3 found w4 texts w5
           expected Htc Hc Htc' Hc' Hf Ht Hl Hperm fuel Hfuel.
    destruct fuel as [|k]; [lia|].
    unfold expectSortedListToEqual. cbn [snd].
    rewrite list_lookup_alter_eq, Hl. cbn [fmap option_fmap option_map default].
    unfold retryExpect. cbn [opt_timeout opt_message opt_concatenateMessages].
    rewrite Htc. cbn [retryExpect_loop]. rewrite Hc.
    unfold retryGetSortedElementsTexts, runRetryLoop.
    cbn [loop_timeout retryGetSortedElementsTexts_loop].
    rewrite Htc'.
    erewrite retryLoop_returns; [| exact Hc' |].
    2:{ cbn [loop_try retryGetSortedElementsTexts_loop]. unfold bind at 1.
        rewrite (getSortedElementsTexts_sorts _ _ _ _ _ _ Hf Ht). reflexivity. }
    rewrite (Array_sort_reordered _ _ Hperm).
    by rewrite deepStrictEqual_same.
Qed.

(** C10.  [expectSortedListToEqual] and [expectSortedListToBe] leave the
    caller's array sorted: after the call, whatever its outcome, the array
    at the address passed holds the old contents in ascending order; no
    other array changes; and an array that was not in order before is not
    what it was. *)
Theorem expected_array_is_sorted_in_place
    (this : ChainedElementAll) (all_ : ElementAll) (list_ : nat)
    (failMessage : option string) (fuel : nat)
    (heap : list (list string)) (w : World) :
  let after := fst (expectSortedListToEqual rt this list_ failMessage fuel heap w) in
  let after_all := fst (expectSortedListToBe rt all_ list_ failMessage fuel heap w) in
  after !! list_ = Array_sort <$> heap !! list_
  /\ after_all !! list_ = Array_sort <$> heap !! list_
  /\ (forall other, other <> list_ ->
        after !! other = heap !! other /\ after_all !! other = heap !! other)
  /\ (forall l, heap !! list_ = Some l -> ~ Sorted String.le l ->
        after !! list_ <> Some l /\ after_all !! list_ <> Some l).
Proof.
  cbn [expectSortedListToEqual expectSortedListToBe fst].
  unfold expectSortedListToEqual, expectSortedListToBe. cbn [fst].
  split; [apply list_lookup_alter_eq|].
  split; [apply list_lookup_alter_eq|].
  split.
  - intros other Hne. split; by apply list_lookup_alter_ne.
  - intros l Hl Hunsorted. rewrite list_lookup_alter_eq, Hl. cbn.
    split; intros [= Heq]; by apply Hunsorted, Array_sort_fixes_sorted_only.
Qed.

End SortedTexts.

Section ExhaustedBudget.
Context {World : Type} (rt : Runtime World).

(** A budget smaller than the time between the reading at entry and the
    first check makes that check fail: so for a negative budget on a clock
    that does not run backwards, and for a zero budget once the clock has
    advanced. *)
Lemma timeoutCondition_elapsed timeout w dt w0 t w1 :
  dateNow rt w = (dt, w0) ->
  dateNow rt w0 = (t, w1) ->
  (timeout < t - dt)%Z ->
  exists cond,
    timeoutCondition rt (Some timeout) w = (cond, w0) /\ cond w0 = (false, w1).
Proof.
  intros Hdt Ht Hlt. unfold timeoutCondition. rewrite Hdt.
  eexists. split; [reflexivity|]. cbn beta. rewrite Ht.
  f_equal. apply Z.leb_gt. exact Hlt.
Qed.

Lemma click_try_not_enabled this retryTimeout w el w1 w2 :
  getElement rt this w = (inr (Elem el), w1) ->
  driver_isEnabled rt el w1 = (inr false, w2) ->
  loop_try (click_loop rt this retryTimeout) w = (inr None, w2).
Proof.
  intros Hg He. cbn [loop_try click_loop]. unfold bind at 1. rewrite Hg.
  unfold bind, onElement, mapError. by rewrite He.
Qed.

Lemma neverEnabled_waiting this retryTimeout cond n w w' :
  neverEnabled rt this cond n w w' ->
  waiting cond (loop_try (click_loop rt this retryTimeout)) n w w'.
Proof.
  induction 1; eauto using @waiting, click_try_not_enabled.
Qed.

(** C9, as amended.  When the first check of the budget fails, a
    retry-until-success loop makes no attempt and throws [undefined], at the
    world that check left; [retryExpect] makes no attempt either and, unless
    a truthy message was given without [concatenateMessages], throws the
    TypeError of reading [message] of [undefined], not an AssertionError.
    [click] throws [undefined] as well when, in every attempt within the
    budget, the chain resolves and the element is not enabled. *)
Theorem exhausted_budget_throws_no_recorded_failure :
  (forall (L : RetryLoop World) (w : World) cond w0 w1,
     timeoutCondition rt (loop_timeout L) w = (cond, w0) ->
     cond w0 = (false, w1) ->
     forall fuel, (0 < fuel)%nat ->
       runRetryLoop rt L fuel w = Some (inl ThrownUndefined, w1))
  /\ (forall (T : Type) (equal : DeepStrictEqual T) (foo : Partial World Thrown T)
             (expected : T) (options : expectOptions) (w : World) cond w0 w1,
        timeoutCondition rt (opt_timeout options) w = (cond, w0) ->
        cond w0 = (false, w1) ->
        forall fuel, (0 < fuel)%nat ->
          (truthy (opt_message options) = false
           \/ opt_concatenateMessages options = true ->
           retryExpect rt foo expected options fuel w
           = Some (inl (ThrownError undefinedMessageError), w1))
          /\ (truthy (opt_message options) = true ->
              opt_concatenateMessages options = false ->
              retryExpect rt foo expected options fuel w
              = Some (inl (ThrownError
                             (mkJsError AssertionError
                                (default "" (opt_message options))
                                (newErrorStack rt w1) false)), w1)))
  /\ (forall (this : Element) (retryTimeout : option Z) (w : World) cond w0 n wn w',
        timeoutCondition rt retryTimeout w = (cond, w0) ->
        neverEnabled rt this cond n w0 wn ->
        cond wn = (false, w') ->
        forall fuel,
          click rt this retryTimeout fuel w
          = if decide (n < fuel)%nat then Some (inl ThrownUndefined, w') else None).
Proof.
  split; [|split].
  - intros L w cond w0 w1 Htc Hc fuel Hfuel.
    destruct fuel as [|k]; [lia|].
    unfold runRetryLoop. rewrite Htc. by apply retryLoop_elapsed.
  - intros T equal foo expected options w cond w0 w1 Htc Hc fuel Hfuel.
    destruct fuel as [|k]; [lia|].
    unfold retryExpect. rewrite Htc. cbn [retryExpect_loop]. rewrite Hc.
    unfold expectFailure.
    split.
    + intros [Hm | Hcat].
      * by rewrite Hm.
      * rewrite Hcat. by destruct (truthy (opt_message options)).
    + intros Hm Hcat. by rewrite Hm, Hcat.
  - intros this retryTimeout w cond w0 n wn w' Htc Hwait Hend fuel.
    unfold click, runRetryLoop. cbn [loop_timeout click_loop]. rewrite Htc.
    pose proof (waiting_retrying cond _
                  (loop_catch (click_loop rt this retryTimeout)
                     (getCleanStack (newErrorStack rt w)))
                  n ThrownUndefined _ _
                  (neverEnabled_waiting this retryTimeout cond n w0 wn Hwait))
      as Hrun.
    case_decide.
    + replace fuel with (n + S (fuel - n - 1))%nat by lia.
      rewrite (retryLoop_retrying _ _ _ _ _ _ _ _ Hrun).
      by apply retryLoop_elapsed.
    + eapply retryLoop_starved; [exact Hrun|lia].
Qed.

End ExhaustedBudget.

Section ErrorContext.
Context {World : Type} (rt : Runtime World).


Lemma config_get_error env key e :
  config_get env key = Throws e ->
  cls e = OtherErrorClass "Error" /\ getElementError e = false.
Proof.
  unfold config_get. destruct (store env !! key); [done|].
  by intros [= <-].
Qed.

Lemma Driver_driver_error (selenium : Selenium World) this env w e this1 w1 :
  Driver_driver selenium this env w = (Throws e, this1, w1) ->
  cls e = OtherErrorClass "Error" /\ getElementError e = false.
Proof.
  unfold Driver_driver. destruct (_driver this); [done|].
  destruct (Config.seleniumHubUrl env) as [server|e1|] eqn:Hs; [|intros [= <- _ _]|done].
  - destruct (Config.webDriverProxy env) as [proxy|e1|] eqn:Hp;
      [|intros [= <- _ _]|done].
    + destruct (Config.browser env) as [browser|e1|] eqn:Hb;
        [by destruct (Builder_build _ _ _ _ _)|intros [= <- _ _]|done].
      unfold Config.browser in Hb.
      destruct (_ && _); [done|].
      destruct (truthy (argv_browser env)); [by destruct (inBrowsersAliases _)|].
      destruct (config_get env "browser") as [v|e2|] eqn:Hg; [|injection Hb as ->|done].
      * by destruct (inBrowsersAliases _).
      * by eapply config_get_error.
    + unfold Config.webDriverProxy in Hp.
      destruct (negb _); [done|]. by eapply config_get_error.
  - unfold Config.seleniumHubUrl, Config.directConnect in Hs.
    destruct (negb (config_has env "directConnect")).
    + cbn [isTruthy] in Hs. by eapply config_get_error.
    + destruct (config_get env "directConnect") as [direct|e2|] eqn:Hd;
        [|injection Hs as ->; by eapply config_get_error|done].
      destruct (isTruthy direct); [done|]. by eapply config_get_error.
Qed.

(** What the session getter throws is an error of [Config]: a plain Error,
    not marked. *)
Lemma sessionFailure_fresh e :
  sessionFailure rt e ->
  cls e = OtherErrorClass "Error" /\ getElementError e = false.
Proof.
  intros (w0 & w' & Hd). unfold webDriver_driver in Hd.
  destruct (Driver_driver _ _ _ _) as [[completion this1] w1] eqn:Hdd.
  destruct completion as [session|e1|]; [done| |done].
  injection Hd as -> _. by eapply Driver_driver_error.
Qed.






Lemma resolutionFailure_marked this e :
  resolutionFailure rt this e -> getElementError e = true.
Proof. by intros (? & ? & ? & ? & ? & ? & _ & _ & ->). Qed.

End ErrorContext.

Section ErrorContextInvariant.
Context {World : Type} (rt : Runtime World).


End ErrorContextInvariant.

(** * Further properties of the retry engine *)

Section BudgetPredicate.
Context {World : Type} (rt : Runtime World).

(** X1.  The predicate that [timeoutCondition] returns compares the time
    read at each call with the time read at creation: it answers true exactly
    when no more than the budget (15000 ms when none is given) has passed.
    So on two readings [t1 <= t2]: when the predicate is false at [t1] it is
    false at [t2], and when true at [t2] it was true at [t1]. *)
Theorem budget_predicate_is_monotone
    (timeoutMs : option Z) (w : World) dt w0 cond :
  dateNow rt w = (dt, w0) ->
  timeoutCondition rt timeoutMs w = (cond, w0) ->
  (forall w1 t w2, dateNow rt w1 = (t, w2) ->
     cond w1
     = (bool_decide (t - dt <= default TimeConstants.QuarterAMinute timeoutMs)%Z, w2))
  /\ (forall w1 t1 w1' w2 t2 w2',
        dateNow rt w1 = (t1, w1') -> dateNow rt w2 = (t2, w2') -> (t1 <= t2)%Z ->
        (fst (cond w1) = false -> fst (cond w2) = false)
        /\ (fst (cond w2) = true -> fst (cond w1) = true)).
Proof.
  intros Hdt Htc. unfold timeoutCondition in Htc. rewrite Hdt in Htc.
  injection Htc as <-.
  assert (forall w1 t w2, dateNow rt w1 = (t, w2) ->
            (let '(t, w2) := dateNow rt w1 in
             (Z.leb (t - dt) (default TimeConstants.QuarterAMinute timeoutMs), w2))
            = (bool_decide (t - dt <= default TimeConstants.QuarterAMinute timeoutMs)%Z,
               w2)) as Hcond.
  { intros w1 t w2 Ht. rewrite Ht. f_equal.
    case_bool_decide as Hle.
    - by apply Z.leb_le.
    - apply Z.leb_gt. lia. }
  split; [exact Hcond|].
  intros w1 t1 w1' w2 t2 w2' H1 H2 Hle.
  rewrite (Hcond _ _ _ H1), (Hcond _ _ _ H2). cbn [fst].
  rewrite !bool_decide_eq_false, !bool_decide_eq_true. lia.
Qed.

End BudgetPredicate.

Section FirstSuccess.
Context {World : Type} (rt : Runtime World).

(** X2.  Whatever the loop: after any [n] iterations that stayed in the loop,
    when the next attempt is within the budget and its body returns [a], the
    call returns [a] at the world that attempt left: no further check of the
    clock and no further attempt, and what was thrown before is dropped. *)
Theorem retry_returns_the_first_success
    (L : RetryLoop World) (w : World) cond w0 n exc wn w1 a w2 :
  timeoutCondition rt (loop_timeout L) w = (cond, w0) ->
  retrying cond (loop_try L) (loop_catch L (getCleanStack (newErrorStack rt w)))
           n ThrownUndefined w0 exc wn ->
  cond wn = (true, w1) ->
  loop_try L w1 = (inr (Some a), w2) ->
  forall fuel,
    runRetryLoop rt L fuel w
    = if decide (n < fuel)%nat then Some (inr a, w2) else None.
Proof.
  intros Htc Hrun Hc Ha fuel.
  unfold runRetryLoop. rewrite Htc.
  case_decide as Hfuel.
  - replace fuel with (n + S (fuel - n - 1))%nat by lia.
    rewrite (retryLoop_retrying _ _ _ _ _ _ _ _ Hrun).
    by eapply retryLoop_returns.
  - eapply retryLoop_starved; [exact Hrun|lia].
Qed.

End FirstSuccess.

Section Termination.
Context {World : Type} (rt : Runtime World) (L : RetryLoop World).

(** A clock that can be read off the world: reading it takes at least
    [a >= 0] ms, and a reading and an attempt together at least [a + b > 0]
    ms, in every world that [Inv] admits. *)
Variable time : World -> Z.
Variable Inv : World -> Prop.
Variables a b : Z.
Hypothesis a_nonneg : (0 <= a)%Z.
Hypothesis iteration_takes_time : (0 < a + b)%Z.
Hypothesis reading :
  forall w, Inv w ->
    fst (dateNow rt w) = time w
    /\ Inv (snd (dateNow rt w))
    /\ (time w + a <= time (snd (dateNow rt w)))%Z.
Hypothesis attempting :
  forall w, Inv w ->
    Inv (snd (loop_try L w)) /\ (time w + b <= time (snd (loop_try L w)))%Z.

Lemma retryLoop_ends cond catch dt timeout :
  (forall w, cond w = (Z.leb (fst (dateNow rt w) - dt) timeout, snd (dateNow rt w))) ->
  forall n w exc,
    Inv w ->
    (timeout - (time w - dt) < Z.of_nat n * (a + b))%Z ->
    forall fuel, (n < fuel)%nat ->
      is_Some (retryLoop cond (loop_try L) catch exc fuel w).
Proof.
  intros Hcond n. induction n as [|n IH]; intros w exc Hinv Hleft fuel Hfuel.
  - destruct fuel as [|fuel]; [lia|]. cbn [retryLoop]. rewrite Hcond.
    destruct (reading w Hinv) as (Hread & _ & _). rewrite Hread.
    replace (Z.leb (time w - dt) timeout) with false; [by eexists|].
    symmetry. apply Z.leb_gt. lia.
  - destruct fuel as [|fuel]; [lia|]. cbn [retryLoop]. rewrite Hcond.
    destruct (reading w Hinv) as (Hread & Hinv1 & Hstep1).
    destruct (Z.leb (fst (dateNow rt w) - dt) timeout); [|by eexists].
    destruct (attempting _ Hinv1) as (Hinv2 & Hstep2).
    destruct (loop_try L (snd (dateNow rt w))) as [[[e|code printed]|[r|]] w2];
      cbn [snd] in *.
    + destruct (catch e); [by eexists | by eexists |].
      apply IH; [done|lia|lia].
    + by eexists.
    + by eexists.
    + apply IH; [done|lia|lia].
Qed.

(** X3.  A retry loop ends.  On a clock that does not run backwards, where
    the reading and the attempt of one iteration take at least [a + b > 0]
    ms together, the call returns or throws (or ends the process) once it
    has fuel for [timeout / (a + b) + 2] iterations; the budget is 15000 ms
    when none is given. *)
Theorem retry_loop_ends_on_an_advancing_clock (w : World) :
  Inv w ->
  forall fuel,
    (Z.to_nat (default TimeConstants.QuarterAMinute (loop_timeout L) / (a + b)) + 2
     <= fuel)%nat ->
    is_Some (runRetryLoop rt L fuel w).
Proof.
  intros Hinv fuel Hfuel. unfold runRetryLoop, timeoutCondition.
  destruct (reading w Hinv) as (Hread & Hinv0 & Hstep0).
  destruct (dateNow rt w) as [dt w0] eqn:Hdt. cbn [fst snd] in *. subst dt.
  set (timeout := default TimeConstants.QuarterAMinute (loop_timeout L)) in *.
  eapply (retryLoop_ends _ _ (time w) timeout)
    with (n := (Z.to_nat (timeout / (a + b)) + 1)%nat); [| done | | lia].
  - intros w1. by destruct (dateNow rt w1).
  - assert (timeout < (timeout / (a + b) + 1) * (a + b))%Z as Hdiv.
    { pose proof (Z.mul_succ_div_gt timeout (a + b) iteration_takes_time). lia. }
    destruct (Z.le_gt_cases 0 (timeout / (a + b))) as [Hq|Hq].
    + rewrite Nat2Z.inj_add, Z2Nat.id by done. lia.
    + assert (timeout < 0)%Z.
      { destruct (Z.le_gt_cases 0 timeout) as [Hpos|]; [|done].
        pose proof (Z.div_pos timeout (a + b) Hpos iteration_takes_time). lia. }
      rewrite Nat2Z.inj_add. rewrite Z2Nat.nonpos by lia. lia.
Qed.

End Termination.

Section RetryExpectFailure.
Context {World : Type} (rt : Runtime World).
Context {T : Type} {equal : DeepStrictEqual T}.

(** X4.  When [n] attempts of [retryExpect] in a row return values that
    differ from [expected], the next one, still within the budget, returns
    [actual], different too, and the following check finds the budget
    elapsed, the call throws an AssertionError.  Its message is the caller's
    message alone when one is given without [concatenateMessages]; the
    caller's message, a line break and the detail of the last mismatch when
    [concatenateMessages] is set; and the detail of the last mismatch alone
    when no message (or an empty one) is given. *)
Theorem retryExpect_failure_message
    (foo : Partial World Thrown T) (expected : T) (options : expectOptions)
    (w : World) cond w0 n exc wn w1 actual w2 w3 :
  timeoutCondition rt (opt_timeout options) w = (cond, w0) ->
  mismatching cond foo expected n ThrownUndefined w0 exc wn ->
  cond wn = (true, w1) ->
  foo w1 = Some (inr actual, w2) ->
  actual <> expected ->
  cond w2 = (false, w3) ->
  forall fuel,
    retryExpect rt foo expected options fuel w
    = if decide (S n < fuel)%nat
      then Some (inl (ThrownError
                        (mkJsError AssertionError
                           (if truthy (opt_message options)
                            then if opt_concatenateMessages options
                                 then default "" (opt_message options)
                                        +:+ String newline
                                              (mismatchMessage actual expected)
                                 else default "" (opt_message options)
                            else mismatchMessage actual expected)
                           (newErrorStack rt w3) false)), w3)
      else None.
Proof.
  intros Htc Hrun Hc Hfoo Hne Hend fuel.
  assert (mismatching cond foo expected (S n) ThrownUndefined w0
            (ThrownError (mkJsError AssertionError
                            (mismatchMessage actual expected) None false)) w2)
    as Hall.
  { clear Htc Hend. induction Hrun; eauto using @mismatching. }
  unfold retryExpect. rewrite Htc.
  case_decide as Hfuel.
  - replace fuel with (S n + S (fuel - n - 2))%nat by lia.
    rewrite (retryExpect_loop_mismatching _ _ _ _ _ _ _ _ _ _ _ Hall).
    cbn [retryExpect_loop]. rewrite Hend. unfold expectFailure.
    destruct (truthy (opt_message options)), (opt_concatenateMessages options);
      reflexivity.
  - eapply retryExpect_loop_starved; [exact Hall|lia].
Qed.

(** X5.  [retryExpect] does not catch what [foo] throws: after any [n]
    mismatches, when the next attempt is within the budget and [foo] throws,
    the call throws the same value at once, without comparing and without
    another attempt, however much budget is left. *)
Theorem retryExpect_does_not_retry_a_throwing_operation
    (foo : Partial World Thrown T) (expected : T) (options : expectOptions)
    (w : World) cond w0 n exc wn w1 thrown w2 :
  timeoutCondition rt (opt_timeout options) w = (cond, w0) ->
  mismatching cond foo expected n ThrownUndefined w0 exc wn ->
  cond wn = (true, w1) ->
  foo w1 = Some (inl thrown, w2) ->
  forall fuel,
    retryExpect rt foo expected options fuel w
    = if decide (n < fuel)%nat then Some (inl thrown, w2) else None.
Proof.
  intros Htc Hrun Hc Hfoo fuel.
  unfold retryExpect. rewrite Htc.
  case_decide as Hfuel.
  - replace fuel with (n + S (fuel - n - 1))%nat by lia.
    rewrite (retryExpect_loop_mismatching _ _ _ _ _ _ _ _ _ _ _ Hrun).
    cbn [retryExpect_loop]. by rewrite Hc, Hfoo.
  - eapply retryExpect_loop_starved; [exact Hrun|lia].
Qed.

End RetryExpectFailure.

Section ElementOperations.
Context {World : Type} (rt : Runtime World).

(** X6.  [click] waits for the element to be enabled and clicks once: when
    in [n] attempts in a row the chain resolves to an element that is not
    enabled (each of these attempts ends with the answer of [isEnabled], no
    click), and in the next attempt within the budget the element is enabled
    and the driver's click succeeds, [click] returns at the world that click
    left. *)
Theorem click_clicks_once_the_element_is_enabled
    (this : Element) (retryTimeout : option Z) (w : World)
    cond w0 n wn w1 el w2 w3 w4 :
  timeoutCondition rt retryTimeout w = (cond, w0) ->
  neverEnabled rt this cond n w0 wn ->
  cond wn = (true, w1) ->
  getElement rt this w1 = (inr (Elem el), w2) ->
  driver_isEnabled rt el w2 = (inr true, w3) ->
  driver_click rt el w3 = (inr tt, w4) ->
  forall fuel,
    click rt this retryTimeout fuel w
    = if decide (n < fuel)%nat then Some (inr tt, w4) else None.
Proof.
  intros Htc Hwait Hc Hg He Hk fuel.
  unfold click, runRetryLoop. cbn [loop_timeout click_loop]. rewrite Htc.
  pose proof (waiting_retrying cond _
                (loop_catch (click_loop rt this retryTimeout)
                   (getCleanStack (newErrorStack rt w)))
                n ThrownUndefined _ _
                (neverEnabled_waiting rt this retryTimeout cond n w0 wn Hwait))
    as Hrun.
  case_decide.
  - replace fuel with (n + S (fuel - n - 1))%nat by lia.
    rewrite (retryLoop_retrying _ _ _ _ _ _ _ _ Hrun).
    eapply retryLoop_returns; [exact Hc|].
    cbn [loop_try click_loop]. unfold bind at 1. rewrite Hg.
    unfold bind, onElement, mapError, ret. by rewrite He, Hk.
  - eapply retryLoop_starved; [exact Hrun|lia].
Qed.

(** X7.  [clickTillAttributeEqual(name, value)] tests containment, not
    equality: after any [n] iterations that stayed in the loop, when in the
    next attempt within the budget the chain resolves, the click succeeds and
    the attribute read afterwards is a string that has [value] as a
    substring, the call returns at once.  When the attribute is absent
    ([null]) the attempt throws a TypeError instead. *)
Theorem clickTillAttributeEqual_returns_when_attribute_contains_value
    (this : Element) (name value : string) (w : World)
    cond w0 n exc wn w1 el w2 w3 attribute w4 :
  let L := clickTillAttributeEqual_loop rt this name value in
  timeoutCondition rt None w = (cond, w0) ->
  retrying cond (loop_try L) (loop_catch L (getCleanStack (newErrorStack rt w)))
           n ThrownUndefined w0 exc wn ->
  cond wn = (true, w1) ->
  getElement rt this w1 = (inr (Elem el), w2) ->
  driver_click rt el w2 = (inr tt, w3) ->
  driver_getAttribute rt el name w3 = (inr attribute, w4) ->
  (forall s, attribute = Some s -> includes s value = true ->
     forall fuel,
       clickTillAttributeEqual rt this name value fuel w
       = if decide (n < fuel)%nat then Some (inr tt, w4) else None)
  /\ (attribute = None ->
      loop_try L w1
      = (inl (Throw (mkJsError TypeError "Cannot read property 'includes' of null"
                               None false)), w4)).
Proof.
  intros L Htc Hrun Hc Hg Hk Ha.
  assert (loop_try L w1
          = match attribute with
            | Some s => (inr (if includes s value then Some tt else None), w4)
            | None => (inl (Throw (mkJsError TypeError
                                     "Cannot read property 'includes' of null"
                                     None false)),
                       w4)
            end) as Htry.
  { cbn [L loop_try clickTillAttributeEqual_loop]. unfold bind at 1. rewrite Hg.
    unfold bind, onElement, mapError, ret, throw. rewrite Hk, Ha.
    destruct attribute as [s|]; [|reflexivity]. by destruct (includes s value). }
  split.
  - intros s -> Hs fuel. rewrite Hs in Htry.
    unfold clickTillAttributeEqual, runRetryLoop.
    cbn [loop_timeout clickTillAttributeEqual_loop]. rewrite Htc. fold L.
    case_decide.
    + replace fuel with (n + S (fuel - n - 1))%nat by lia.
      rewrite (retryLoop_retrying _ _ _ _ _ _ _ _ Hrun).
      by eapply retryLoop_returns.
    + eapply retryLoop_starved; [exact Hrun|lia].
  - by intros ->.
Qed.

(** X8.  Resolution is a left fold of [findElement] over the chain, after
    the session getter: the element with the chain [chain ++ [l]] resolves as
    the element with [chain] does, and then looks [l] up under the node
    found.  A failure inside [chain], or of the getter, is the same in both;
    a failure on [l] carries the whole chain [chain ++ [l]] and the mark.
    The empty chain resolves to the session with the getter alone and no
    call to [findElement]: what the getter throws is thrown as it is.  The
    getter returns the stored session when the Driver object has one, and
    leaves the world as it is. *)
Theorem getElement_of_an_extended_chain
    (own own' : option By) (chain : list By) (l : By) (w : World) :
  getElement rt (mkElement own' (chain ++ [l])) w
  = match getElement rt (mkElement own chain) w with
    | (inl a, w1) => (inl a, w1)
    | (inr node, w1) =>
        match driver_findElement rt node l w1 with
        | (inr el, w2) => (inr (Elem el), w2)
        | (inl raw, w2) =>
            (inl (Throw (markGetElementError
                           (appendMessage (fromDriver raw)
                              (chainContext (chain ++ [l]))))),
             w2)
        end
    end
  /\ getElement rt (mkElement own []) w
     = match webDriver_driver rt w with
       | (inl a, w1) => (inl a, w1)
       | (inr _, w1) => (inr Session, w1)
       end
  /\ (forall session,
        _driver (driverObject rt w) = Some session ->
        webDriver_driver rt w = (inr session, w)).
Proof.
  split; [|split].
  2:{ unfold getElement, bind. cbn [chainedLocators getElement_from].
      by destruct (webDriver_driver rt w) as [[a|session] w1]. }
  2:{ intros session Hs. unfold webDriver_driver, Driver_driver. by rewrite Hs. }
  unfold getElement, bind. cbn [chainedLocators].
  assert (forall rest index node w,
            (index + length rest = length chain)%nat ->
            getElement_from rt (mkElement own' (chain ++ [l])) index (rest ++ [l]) node w
            = match getElement_from rt (mkElement own chain) index rest node w with
              | (inl a, w1) => (inl a, w1)
              | (inr node, w1) =>
                  match driver_findElement rt node l w1 with
                  | (inr el, w2) => (inr (Elem el), w2)
                  | (inl raw, w2) =>
                      (inl (Throw (markGetElementError
                                     (appendMessage (fromDriver raw)
                                        (chainContext (chain ++ [l]))))), w2)
                  end
              end) as Hfold.
  { clear w. induction rest as [|l0 rest IH]; intros index node w Hlen.
    - cbn [app getElement_from length] in *.
      unfold bind, tryCatch, mapError, thrownFromDriver, throw, ret, getSlicedLocators.
      cbn [chainedLocators].
      rewrite Nat.add_0_r in Hlen. subst index.
      rewrite take_ge by (rewrite length_app; cbn; lia).
      by destruct (driver_findElement rt node l w) as [[raw|el] w2].
    - cbn [app getElement_from length] in *.
      unfold bind, tryCatch, mapError, thrownFromDriver, throw, getSlicedLocators.
      cbn [chainedLocators].
      rewrite take_app_le by lia.
      destruct (driver_findElement rt node l0 w) as [[raw|el] w1]; [reflexivity|].
      apply IH. lia. }
  destruct (webDriver_driver rt w) as [[a|session] w1]; [reflexivity|].
  apply (Hfold chain 0%nat). reflexivity.
Qed.

(** X9.  [getTexts] reads the texts in the order of the elements, one call
    of the driver's [getText] each, and stops at the first failure.  On no
    element it returns the empty list and leaves the world alone; on one
    element it is the driver's [getText] on it, the text in a one-element
    list or the driver's error thrown; over [xs ++ ys] it reads [xs], then
    [ys] from the world that left, and returns the texts of both in order, or
    the first error, the elements after it not being read.  So it returns as
    many texts as there are elements. *)
Theorem getTexts_reads_in_order (xs ys : list WebElement) (w : World) :
  getTexts rt [] w = (inr [], w)
  /\ (forall x,
        getTexts rt [x] w
        = match driver_getText rt x w with
          | (inr text, w1) => (inr [text], w1)
          | (inl raw, w1) => (inl (Throw (fromDriver raw)), w1)
          end)
  /\ getTexts rt (xs ++ ys) w
     = match getTexts rt xs w with
       | (inl a, w1) => (inl a, w1)
       | (inr texts, w1) =>
           match getTexts rt ys w1 with
           | (inl a, w2) => (inl a, w2)
           | (inr texts', w2) => (inr (texts ++ texts'), w2)
           end
       end
  /\ forall texts w', getTexts rt xs w = (inr texts, w') -> length texts = length xs.
Proof.
  split; [reflexivity|]. split; [|split].
  - intros x. cbn [getTexts]. unfold bind, mapError, thrownFromDriver, ret.
    by destruct (driver_getText rt x w) as [[raw|text] w1].
  - revert w. induction xs as [|x xs IH]; intros w.
    + cbn [app getTexts]. unfold ret.
      by destruct (getTexts rt ys w) as [[a|texts'] w2].
    + cbn [app getTexts]. unfold bind, mapError, thrownFromDriver, ret.
      destruct (driver_getText rt x w) as [[raw|text] w1]; [reflexivity|].
      rewrite IH.
      destruct (getTexts rt xs w1) as [[a|texts] w2]; [reflexivity|].
      by destruct (getTexts rt ys w2) as [[a|texts'] w3].
  - revert w. induction xs as [|x xs IH]; intros w texts w' Hg.
    + by injection Hg as <- <-.
    + cbn [getTexts] in Hg. unfold bind, mapError, thrownFromDriver, ret in Hg.
      destruct (driver_getText rt x w) as [[raw|text] w1]; [discriminate|].
      destruct (getTexts rt xs w1) as [[a|texts0] w2] eqn:Hrest; [discriminate|].
      injection Hg as <- <-. cbn [length]. f_equal. eauto.
Qed.

End ElementOperations.

Section Substrings.

Lemma prefix_app (needle rest : string) : String.prefix needle (needle +:+ rest) = true.
Proof.
  induction needle as [|c needle IH]; [by destruct rest|].
  change (String c needle +:+ rest) with (String c (needle +:+ rest)).
  cbn [String.prefix]. destruct (ascii_dec c c); [exact IH|done].
Qed.

Lemma includes_after (before s needle : string) :
  includes s needle = true -> includes (before +:+ s) needle = true.
Proof.
  intros Hs. induction before as [|c before IH]; [exact Hs|].
  change (String c before +:+ s) with (String c (before +:+ s)).
  cbn [includes]. rewrite IH. apply orb_true_r.
Qed.

Lemma includes_at (before needle rest : string) :
  includes (before +:+ needle +:+ rest) needle = true.
Proof.
  apply includes_after.
  destruct (needle +:+ rest) eqn:E; cbn [includes]; rewrite <- E, prefix_app; done.
Qed.

End Substrings.

Section Presence.
Context {World : Type} (rt : Runtime World).
Context {equal_bool : DeepStrictEqual bool}.

Lemma isPresent_of_resolution this w :
  isPresent rt this w
  = match getElement rt this w with
    | (inr _, w') => (inr true, w')
    | (inl (Throw e), w') =>
        if bool_decide (cls e = NoSuchElementError)
           || bool_decide (cls e = StaleElementReferenceError)
        then (inr false, w')
        else (inl (Throw e), w')
    | (inl (Exit code printed), w') => (inl (Exit code printed), w')
    end.
Proof.
  unfold isPresent, tryCatch, bind, ret, throw, instanceof.
  destruct (getElement rt this w) as [[[e|code printed]|node] w']; [|reflexivity..].
  by destruct (_ || _).
Qed.

Lemma neverFound_mismatching this cond n w w' :
  neverFound rt this cond n w w' ->
  forall exc, exists exc',
    mismatching cond (fun w => Some (mapError uncaught (isPresent rt this) w))
                true n exc w exc' w'.
Proof.
  induction 1 as [|n w w1 e w2 w' Hc Hg Hcls _ IH]; intros exc.
  - eexists. constructor.
  - edestruct IH as [exc' Hrest].
    eexists. eapply mismatching_next with (actual := false);
      [exact Hc | | discriminate | exact Hrest].
    unfold mapError. rewrite isPresent_of_resolution, Hg.
    by destruct Hcls as [-> | ->].
Qed.

(** X10.  [expectToBePresent] on an element that is never found: when in
    every attempt within the budget the resolution fails with a not-found or
    a stale-reference error, the call throws, once the budget has elapsed, an
    AssertionError whose message is the caller's message (the text
    "undefined" when none is given), a line break, " Expected element to be
    present " and the chain; the driver's error is not part of it. *)
Theorem expectToBePresent_reports_an_element_never_found
    (this : Element) (failMessage : option string) (timeout : option Z)
    (w : World) cond w0 n wn w' :
  timeoutCondition rt timeout w = (cond, w0) ->
  neverFound rt this cond n w0 wn ->
  cond wn = (false, w') ->
  let msg := default "undefined" failMessage
               +:+ String newline " Expected element to be present "
               +:+ locators_toString (chainedLocators this) in
  (forall fuel,
     expectToBePresent rt this failMessage timeout fuel w
     = if decide (n < fuel)%nat
       then Some (inl (ThrownError
                         (mkJsError AssertionError msg (newErrorStack rt w') false)),
                  w')
       else None)
  /\ includes msg "Expected element to be present" = true.
Proof.
  intros Htc Hnever Hend msg.
  split.
  - intros fuel.
    destruct (neverFound_mismatching this cond n w0 wn Hnever ThrownUndefined)
      as [exc Hrun].
    unfold expectToBePresent, retryExpect.
    cbn [opt_timeout opt_message opt_concatenateMessages]. rewrite Htc.
    case_decide.
    + replace fuel with (n + S (fuel - n - 1))%nat by lia.
      rewrite (retryExpect_loop_mismatching _ _ _ _ _ _ _ _ _ _ _ Hrun).
      cbn [retryExpect_loop]. rewrite Hend. unfold expectFailure, expectMessage.
      replace (truthy _) with true; [reflexivity|].
      unfold template. cbn [truthy].
      by destruct (default "undefined" failMessage).
    + eapply retryExpect_loop_starved; [exact Hrun|lia].
  - subst msg.
    change (String newline " Expected element to be present "
              +:+ locators_toString (chainedLocators this))
      with (String newline " " +:+ "Expected element to be present"
              +:+ " " +:+ locators_toString (chainedLocators this)).
    apply includes_after, includes_at.
Qed.

(** X11.  For [expectToBeNotPresent] a resolution failure is final either
    way: after any [n] attempts that found the element, when the next one,
    within the budget, fails to resolve the chain with a not-found or a
    stale-reference error, the call returns successfully at once; when it
    fails with an error of any other class, the call throws that error at
    once, without another attempt. *)
Theorem expectToBeNotPresent_ends_on_the_first_resolution_failure
    (this : Element) (failMessage : option string) (timeout : option Z)
    (w : World) cond w0 n exc wn w1 e w2 :
  timeoutCondition rt timeout w = (cond, w0) ->
  mismatching cond (fun w => Some (mapError uncaught (isPresent rt this) w))
              false n ThrownUndefined w0 exc wn ->
  cond wn = (true, w1) ->
  getElement rt this w1 = (inl (Throw e), w2) ->
  (cls e = NoSuchElementError \/ cls e = StaleElementReferenceError ->
   forall fuel,
     expectToBeNotPresent rt this failMessage timeout fuel w
     = if decide (n < fuel)%nat then Some (inr tt, w2) else None)
  /\ (cls e <> NoSuchElementError -> cls e <> StaleElementReferenceError ->
      forall fuel,
        expectToBeNotPresent rt this failMessage timeout fuel w
        = if decide (n < fuel)%nat then Some (inl (ThrownError e), w2) else None).
Proof.
  intros Htc Hrun Hc Hg.
  assert (forall fuel, (fuel <= n)%nat ->
            expectToBeNotPresent rt this failMessage timeout fuel w = None)
    as Hstarved.
  { intros fuel Hfuel. unfold expectToBeNotPresent, retryExpect.
    cbn [opt_timeout]. rewrite Htc.
    eapply retryExpect_loop_starved; [exact Hrun|lia]. }
  assert (forall fuel, (n < fuel)%nat ->
            expectToBeNotPresent rt this failMessage timeout fuel w
            = match mapError uncaught (isPresent rt this) w1 with
              | (inl thrown, w2) => Some (inl thrown, w2)
              | (inr actual, w2) =>
                  match deepStrictEqual actual false with
                  | inr _ => Some (inr tt, w2)
                  | inl e =>
                      retryExpect_loop rt cond
                        (fun w => Some (mapError uncaught (isPresent rt this) w))
                        false
                        (expectMessage failMessage
                           " Expected element not to be present " this)
                        false (ThrownError e) (fuel - n - 1) w2
                  end
              end) as Hstep.
  { intros fuel Hfuel. unfold expectToBeNotPresent, retryExpect.
    cbn [opt_timeout opt_message opt_concatenateMessages]. rewrite Htc.
    replace fuel with (n + S (fuel - n - 1))%nat at 1 by lia.
    rewrite (retryExpect_loop_mismatching _ _ _ _ _ _ _ _ _ _ _ Hrun).
    cbn [retryExpect_loop]. rewrite Hc.
    by destruct (mapError uncaught (isPresent rt this) w1) as [[?|?] ?]. }
  split.
  - intros Hcls fuel. case_decide; [|apply Hstarved; lia].
    rewrite Hstep by done. unfold mapError.
    rewrite isPresent_of_resolution, Hg.
    assert (bool_decide (cls e = NoSuchElementError)
            || bool_decide (cls e = StaleElementReferenceError) = true) as ->
      by (destruct Hcls as [-> | ->]; reflexivity).
    by rewrite deepStrictEqual_same.
  - intros Hn Hs fuel. case_decide; [|apply Hstarved; lia].
    rewrite Hstep by done. unfold mapError.
    rewrite isPresent_of_resolution, Hg.
    by rewrite !bool_decide_eq_false_2.
Qed.

End Presence.

Section ExecuteScript.
Context {World : Type} (rt : Runtime World).

(** X12.  [Driver.retryExecuteScript] retries on every error, an invalid
    selector included, and replaces no stack.  Each attempt goes through the
    session getter and then runs the script; when every attempt within the
    budget fails, the call throws, once the budget has elapsed, the error of
    the last attempt exactly as it was raised: what the getter threw, or the
    driver's error of the script. *)
Theorem retryExecuteScript_keeps_every_error
    (script : string) (var_args : list string) (w : World)
    cond w0 n exc wn w1 e w2 w3 :
  let L := retryExecuteScript_loop rt script var_args in
  timeoutCondition rt None w = (cond, w0) ->
  failing cond (loop_try L) (loop_catch L (getCleanStack (newErrorStack rt w)))
          n ThrownUndefined w0 exc wn ->
  cond wn = (true, w1) ->
  (webDriver_driver rt w1 = (inl (Throw e), w2)
   \/ exists session wg raw,
        webDriver_driver rt w1 = (inr session, wg)
        /\ driver_executeScript rt script var_args wg = (inl raw, w2)
        /\ e = fromDriver raw) ->
  cond w2 = (false, w3) ->
  forall fuel,
    retryExecuteScript rt script var_args fuel w
    = if decide (S n < fuel)%nat
      then Some (inl (ThrownError e), w3)
      else None.
Proof.
  intros L Htc Hfail Hc He Hend fuel.
  unfold retryExecuteScript, runRetryLoop.
  cbn [loop_timeout retryExecuteScript_loop]. rewrite Htc. fold L.
  assert (retrying cond (loop_try L)
            (loop_catch L (getCleanStack (newErrorStack rt w)))
            (n + 1) ThrownUndefined w0 (ThrownError e) w2) as Hrun.
  { eapply retrying_app; [by apply failing_retrying|].
    eapply retryLoop_caught_once; [exact Hc | | reflexivity].
    cbn [L loop_try retryExecuteScript_loop].
    unfold bind, mapError, thrownFromDriver.
    destruct He as [Hg | (session & wg & raw & Hg & Hs & ->)]; rewrite Hg; [done|].
    by rewrite Hs. }
  case_decide.
  - replace fuel with ((n + 1) + S (fuel - n - 2))%nat by lia.
    rewrite (retryLoop_retrying _ _ _ _ _ _ _ _ Hrun).
    by apply retryLoop_elapsed.
  - eapply retryLoop_starved; [exact Hrun|lia].
Qed.

End ExecuteScript.

Section ElementObjects.

Lemma wellFormed_grown heap more obj :
  wellFormed heap obj -> wellFormed (heap ++ more) obj.
Proof.
  intros [Hlt Hown]. split; [rewrite length_app; lia|].
  unfold chainOf, elementAt in *. cbn [chainedLocators] in *.
  by rewrite arrayAt_grown.
Qed.

Lemma wellFormed_derived heap chain l :
  wellFormed (heap ++ [chain ++ [l]] ++ [chain ++ [l]])
             (mkElementObject (Some l) (S (length heap))).
Proof.
  split; [rewrite !length_app; cbn; lia|].
  unfold chainOf, elementAt. cbn [chainedLocators object_chainedLocators object_ownLocator].
  by rewrite arrayAt_second, last_snoc.
Qed.

(** X13.  Every Element object keeps its own locator equal to the last
    locator of its chain.  The constructor establishes it, from one locator
    and from an array (for the empty array the own locator is absent, and
    reading [currentLocator] throws the TypeError 'Locator is null'); [$],
    [xpath] and [element] hand it to the child, whose own locator is the
    locator added, and leave it true of every object that existed. *)
Theorem own_locator_is_the_last_of_the_chain (heap : ArrayHeap) :
  (forall l : By,
     let '(obj, heap1) := Element_constructor (inl l) heap in
     wellFormed heap1 obj /\ chainOf heap1 obj = [l])
  /\ (forall array : nat, (array < length heap)%nat ->
        let '(obj, heap1) := Element_constructor (inr array) heap in
        wellFormed heap1 obj
        /\ chainOf heap1 obj = arrayAt heap array
        /\ (arrayAt heap array = [] ->
            currentLocator obj
            = inl (mkJsError TypeError "Locator is null" None false)))
  /\ (forall (p : ElementObject) (s : string),
        (let '(c, heap1) := Element_dollar p s heap in
         wellFormed heap1 c /\ object_ownLocator c = Some (ByFactory.css s)
         /\ forall q, wellFormed heap q -> wellFormed heap1 q)
        /\ (let '(c, heap1) := Element_xpath p s heap in
            wellFormed heap1 c /\ object_ownLocator c = Some (ByFactory.xpath s)
            /\ forall q, wellFormed heap q -> wellFormed heap1 q)).
Proof.
  split; [|split].
  - intros l. rewrite Element_constructor_locator. split.
    + split; [rewrite length_app; cbn; lia|].
      unfold chainOf, elementAt. cbn [chainedLocators object_chainedLocators].
      by rewrite arrayAt_new.
    + unfold chainOf, elementAt. cbn [chainedLocators object_chainedLocators].
      apply arrayAt_new.
  - intros array Hlt. rewrite Element_constructor_array by done.
    assert (chainOf (heap ++ [arrayAt heap array])
              (mkElementObject (last (arrayAt heap array)) (length heap))
            = arrayAt heap array) as Hchain.
    { unfold chainOf, elementAt. cbn [chainedLocators object_chainedLocators].
      apply arrayAt_new. }
    split; [|split].
    + split; [rewrite length_app; cbn; lia|]. by rewrite Hchain.
    + exact Hchain.
    + intros Hempty. unfold currentLocator. cbn [object_ownLocator].
      by rewrite Hempty.
  - intros p s. split.
    + rewrite Element_dollar_eq.
      split; [apply wellFormed_derived|]. split; [reflexivity|].
      intros q. apply wellFormed_grown.
    + rewrite Element_xpath_eq.
      split; [apply wellFormed_derived|]. split; [reflexivity|].
      intros q. apply wellFormed_grown.
Qed.

(** X14.  [p.element(other)] takes from [other] its own locator only: the
    child's chain is [p]'s chain and the last locator of [other]'s chain, the
    locators before it in [other]'s chain play no part.  When [other] has no
    own locator (it was built from an empty array) the call throws the
    TypeError 'Locator is null' and builds nothing. *)
Theorem element_of_an_element_takes_its_own_locator
    (heap : ArrayHeap) (p other : ElementObject) :
  wellFormed heap other ->
  match last (chainOf heap other) with
  | Some l =>
      exists c heap1,
        Element_element p (inr other) heap = (inr c, heap1)
        /\ chainOf heap1 c = chainOf heap p ++ [l]
        /\ object_ownLocator c = Some l
        /\ forall array, (array < length heap)%nat -> heap1 !! array = heap !! array
  | None =>
      Element_element p (inr other) heap
      = (inl (mkJsError TypeError "Locator is null" None false), heap)
  end.
Proof.
  intros [Hlt Hown]. unfold Element_element, currentLocator. rewrite Hown.
  destruct (last (chainOf heap other)) as [l|]; [|reflexivity].
  pose proof (derive_spread heap (arrayAt heap (object_chainedLocators p)) l) as E.
  destruct (newArray _ heap) as [spread heap1]. rewrite E.
  eexists _, _. split; [reflexivity|].
  unfold chainOf, elementAt. cbn [chainedLocators object_chainedLocators object_ownLocator].
  split; [apply arrayAt_second|]. split; [reflexivity|].
  intros array Harr. by rewrite lookup_app_l.
Qed.

End ElementObjects.

Section CleanStack.

Lemma split_lines_not_empty s : split_lines s <> [].
Proof.
  destruct s as [|c s]; [done|]. cbn [split_lines].
  destruct (Ascii.eqb c newline); [done|]. by destruct (split_lines s).
Qed.

Lemma split_lines_line s : hasNewline s = false -> split_lines s = [s].
Proof.
  induction s as [|c s IH]; [done|]. cbn [hasNewline split_lines].
  intros [Hc Hs]%orb_false_elim. rewrite Hc, IH; done.
Qed.

Lemma split_lines_break line s :
  hasNewline line = false ->
  split_lines (line +:+ String newline s) = line :: split_lines s.
Proof.
  intros Hline. induction line as [|c line IH].
  - change ("" +:+ String newline s) with (String newline s).
    cbn [split_lines]. by rewrite Ascii.eqb_refl.
  - change (String c line +:+ String newline s)
      with (String c (line +:+ String newline s)).
    cbn [hasNewline] in Hline. apply orb_false_elim in Hline as [Hc Hrest].
    cbn [split_lines]. rewrite Hc, IH; done.
Qed.

Lemma split_lines_no_break s : Forall (fun line => hasNewline line = false) (split_lines s).
Proof.
  induction s as [|c s IH]; [by repeat constructor|].
  cbn [split_lines]. destruct (Ascii.eqb c newline) eqn:Hc.
  - by constructor.
  - destruct (split_lines s) as [|line lines]; [by repeat constructor; cbn; rewrite Hc|].
    inversion IH as [|?? Hline Hlines]; subst.
    constructor; [|done]. cbn [hasNewline]. by rewrite Hc, Hline.
Qed.

Lemma split_lines_concat lines :
  lines <> [] ->
  Forall (fun line => hasNewline line = false) lines ->
  split_lines (String.concat (String newline "") lines) = lines.
Proof.
  induction lines as [|line lines IH]; [done|]. intros _ Hall.
  inversion Hall as [|?? Hline Hlines]; subst.
  destruct lines as [|line' lines].
  - cbn [String.concat]. by apply split_lines_line.
  - change (String.concat (String newline "") (line :: line' :: lines))
      with (line +:+ String newline (String.concat (String newline "") (line' :: lines))).
    rewrite split_lines_break by done. f_equal. by apply IH.
Qed.

Lemma concat_split_lines s : String.concat (String newline "") (split_lines s) = s.
Proof.
  induction s as [|c s IH]; [done|]. cbn [split_lines].
  destruct (Ascii.eqb c newline) eqn:Hc.
  - apply Ascii.eqb_eq in Hc as ->.
    pose proof (split_lines_not_empty s) as Hne.
    destruct (split_lines s) as [|line lines] eqn:E; [done|].
    change (String.concat (String newline "") ("" :: line :: lines))
      with (String newline (String.concat (String newline "") (line :: lines))).
    by rewrite IH.
  - pose proof (split_lines_not_empty s) as Hne.
    destruct (split_lines s) as [|line lines] eqn:E; [done|].
    rewrite <- IH. by destruct lines.
Qed.

(** X15.  The lines of the stack that [getCleanStack] returns are the lines
    of the stack given that do not contain "driver.ts", in their order; no
    line of the result contains it.  When every line contains it, the result
    is the empty string, which a second pass would turn into [undefined];
    an absent or empty stack gives [undefined]. *)
Theorem getCleanStack_drops_the_lines_of_driver_ts (s : string) :
  s <> "" ->
  exists out,
    getCleanStack (Some s) = Some out
    /\ (keptLines s <> [] ->
        split_lines out = keptLines s)
    /\ (keptLines s = [] -> out = "" /\ getCleanStack (Some out) = None)
    /\ Forall (fun line => includes line "driver.ts" = false) (split_lines out)
    /\ getCleanStack None = None /\ getCleanStack (Some "") = None.
Proof.
  intros Hs. unfold getCleanStack.
  replace (String.eqb s "") with false by (symmetry; by apply String.eqb_neq).
  eexists. split; [reflexivity|]. fold (keptLines s).
  assert (Forall (fun line => hasNewline line = false) (keptLines s))
    as Hbreaks.
  { apply Forall_forall. unfold keptLines. intros line [_ Hin]%list_elem_of_filter.
    by apply (proj1 (Forall_forall _ _) (split_lines_no_break s)). }
  split; [|split; [|split]].
  - intros Hne. by apply split_lines_concat.
  - by intros ->.
  - destruct (keptLines s) as [|line lines] eqn:E.
    + by repeat constructor.
    + rewrite split_lines_concat by done. rewrite <- E.
      apply Forall_forall. unfold keptLines.
      by intros line0 [Hk _]%list_elem_of_filter.
  - done.
Qed.

(** X16.  A stack none of whose lines contains "driver.ts" comes back from
    [getCleanStack] as it went in. *)
Theorem getCleanStack_keeps_a_stack_without_driver_ts (s : string) :
  s <> "" ->
  Forall (fun line => includes line "driver.ts" = false) (split_lines s) ->
  getCleanStack (Some s) = Some s.
Proof.
  intros Hs Hall. unfold getCleanStack.
  replace (String.eqb s "") with false by (symmetry; by apply String.eqb_neq).
  f_equal. fold (keptLines s).
  replace (keptLines s) with (split_lines s).
  - apply concat_split_lines.
  - symmetry. unfold keptLines. induction Hall as [|line lines Hk _ IH]; [done|].
    rewrite filter_cons_True by done. by f_equal.
Qed.

End CleanStack.

(** * Config and the Driver facade *)

Section Configuration.

Lemma config_get_has env key :
  config_has env key = true -> exists v, store env !! key = Some v /\ config_get env key = Returns v.
Proof.
  unfold config_has, config_get. intros [v Hv]%bool_decide_eq_true.
  exists v. by rewrite Hv.
Qed.

Lemma config_get_missing env key :
  config_has env key = false -> store env !! key = None.
Proof.
  unfold config_has. intros Hno%bool_decide_eq_false.
  destruct (store env !! key) eqn:E; [|done]. destruct Hno. by eexists.
Qed.

(** X17.  The hub URL under direct connection.  When [directConnect] is
    configured with a truthy value, [Config.seleniumHubUrl] is the empty
    string, whatever the store holds under [seleniumHubUrl], and also when it
    holds nothing there.  When [directConnect] is absent or falsy, the getter
    returns the configured URL, and throws when none is configured. *)
Theorem seleniumHubUrl_is_empty_under_direct_connect (env : ConfigEnv) :
  (forall direct, store env !! "directConnect" = Some direct -> isTruthy direct = true ->
     Config.seleniumHubUrl env = Returns (CString ""))
  /\ ((store env !! "directConnect" = None
       \/ exists direct, store env !! "directConnect" = Some direct
                         /\ isTruthy direct = false) ->
      (forall url, store env !! "seleniumHubUrl" = Some url ->
         Config.seleniumHubUrl env = Returns url)
      /\ (store env !! "seleniumHubUrl" = None ->
          exists e, Config.seleniumHubUrl env = Throws e))
  /\ (store env !! "directConnect" = None ->
      Config.directConnect env = Returns (CBool false)).
Proof.
  unfold Config.seleniumHubUrl, Config.directConnect, config_has, config_get.
  split; [|split].
  - intros direct Hd Ht. rewrite Hd.
    rewrite bool_decide_eq_true_2 by by eexists. cbn [negb]. by rewrite Ht.
  - intros Hfalsy.
    assert (match (if negb (bool_decide (is_Some (store env !! "directConnect")))
                   then Returns (CBool false)
                   else match store env !! "directConnect" with
                        | Some v => Returns v
                        | None => Throws (mkJsError (OtherErrorClass "Error")
                                    ("Configuration property " +:+ quote
                                       +:+ "directConnect" +:+ quote
                                       +:+ " is not defined") None false)
                        end) with
            | Returns direct => isTruthy direct = false
            | _ => False
            end) as Hdirect.
    { destruct Hfalsy as [Hnone | (direct & Hd & Hf)].
      - rewrite Hnone. by rewrite bool_decide_eq_false_2 by by intros [? [=]].
      - rewrite Hd. by rewrite bool_decide_eq_true_2 by by eexists. }
    destruct (if negb _ then _ else _) as [direct| |]; [|done..].
    rewrite Hdirect. split.
    + by intros url ->.
    + intros ->. by eexists.
  - intros Hnone. rewrite Hnone.
    by rewrite bool_decide_eq_false_2 by by intros [? [=]].
Qed.

(** X18.  The browser name.  A non-empty [--browser] argument decides alone:
    [Config.browser] returns it when it is an alias of the enum, and ends the
    process with code 1 when it is not an own or inherited key of the enum
    object, whatever the configuration holds.  Without the argument the
    configured value is used, and with neither the process ends with code 1.
    Whatever is returned passed the [in] test, which the names that every
    object inherits pass too: for these the capability table has no
    payload. *)
Theorem browser_comes_from_the_command_line_first (env : ConfigEnv) :
  (forall name, argv_browser env = Some name -> name <> "" ->
     (name ∈ BrowsersAliases -> Config.browser env = Returns (CString name))
     /\ (name ∉ BrowsersAliases ++ ObjectPrototypeKeys ->
         Config.browser env = Exits 1 browserIncorrect))
  /\ (truthy (argv_browser env) = false ->
      (store env !! "browser" = None -> Config.browser env = Exits 1 browserNotSet)
      /\ (forall v, store env !! "browser" = Some v ->
            Config.browser env
            = if inBrowsersAliases (toPropertyKey v) then Returns v
              else Exits 1 browserIncorrect))
  /\ (forall v, Config.browser env = Returns v ->
        toPropertyKey v ∈ BrowsersAliases ++ ObjectPrototypeKeys)
  /\ (forall name, name ∈ ObjectPrototypeKeys ->
        inBrowsersAliases name = true /\ capabilities !! name = None)
  /\ (forall name, name ∈ BrowsersAliases -> is_Some (capabilities !! name)).
Proof.
  split; [|split; [|split; [|split]]].
  - intros name Hargv Hne.
    assert (truthy (argv_browser env) = true) as Ht.
    { rewrite Hargv. cbn [truthy]. apply negb_true_iff. by apply String.eqb_neq. }
    unfold Config.browser. rewrite Ht, Hargv. cbn [negb andb default toPropertyKey].
    unfold inBrowsersAliases. split.
    + intros Hin. rewrite bool_decide_eq_true_2; [done|].
      apply elem_of_app. by left.
    + intros Hout. by rewrite bool_decide_eq_false_2.
  - intros Hf. unfold Config.browser. rewrite Hf. cbn [negb andb].
    unfold config_has, config_get. split.
    + intros ->. by rewrite bool_decide_eq_false_2 by by intros [? [=]].
    + intros v ->. by rewrite bool_decide_eq_true_2 by by eexists.
  - intros v. unfold Config.browser.
    destruct (_ && _); [done|].
    destruct (if truthy (argv_browser env) then _ else _) as [b| |]; [|done..].
    destruct (inBrowsersAliases (toPropertyKey b)) eqn:Hin; [|done].
    intros [= <-]. by apply bool_decide_eq_true in Hin.
  - intros name Hin.
    repeat (apply elem_of_cons in Hin as [-> | Hin]; [by vm_compute|]).
    by apply elem_of_nil in Hin.
  - intros name Hin.
    repeat (apply elem_of_cons in Hin as [-> | Hin]; [vm_compute; by eexists|]).
    by apply elem_of_nil in Hin.
Qed.

(** X19.  [Config.browsers] returns the configured array as it is exactly
    when every entry passes the [in] test; it ends the process with code 1
    when [browsers] is not configured or an entry fails the test. *)
Theorem browsers_are_checked_one_by_one (env : ConfigEnv) :
  (store env !! "browsers" = None -> Config.browsers env = Exits 1 browsersNotSet)
  /\ (forall items, store env !! "browsers" = Some (CList items) ->
        (Forall (fun name => name ∈ BrowsersAliases ++ ObjectPrototypeKeys) items ->
         Config.browsers env = Returns items)
        /\ (Exists (fun name => name ∉ BrowsersAliases ++ ObjectPrototypeKeys) items ->
            Config.browsers env = Exits 1 browsersIncorrect)).
Proof.
  unfold Config.browsers, config_has, config_get. split.
  - intros ->. by rewrite bool_decide_eq_false_2 by by intros [? [=]].
  - intros items ->. rewrite bool_decide_eq_true_2 by by eexists. cbn [negb].
    split.
    + intros Hall. replace (forallb inBrowsersAliases items) with true; [done|].
      symmetry. apply forallb_forall. intros name Hin.
      apply bool_decide_eq_true. apply list_elem_of_In in Hin.
      by apply (proj1 (Forall_forall _ _) Hall).
    + intros Hex. replace (forallb inBrowsersAliases items) with false; [done|].
      symmetry. apply not_true_is_false. intros Hall.
      apply Exists_exists in Hex as (name & Hin & Hout).
      apply list_elem_of_In in Hin.
      pose proof (proj1 (forallb_forall _ _) Hall name Hin) as Hok.
      by apply bool_decide_eq_true in Hok.
Qed.

End Configuration.

Section FacadeProperties.
Context {World : Type} (selenium : Selenium World).

(** X20.  The facade builds one session.  On an object without a session
    and a configuration that yields a server, a proxy and a browser, the
    first access builds the session from them, stores it and maximizes its
    window.  From then on every access returns that session and touches
    neither the world nor the configuration, whatever they have become; and
    [get(url)] goes to that session. *)
Theorem session_is_built_on_first_access_only
    (this : DriverObject) (env : ConfigEnv) (w : World) server proxy browser :
  _driver this = None ->
  Config.seleniumHubUrl env = Returns server ->
  Config.webDriverProxy env = Returns proxy ->
  Config.browser env = Returns browser ->
  let '(session, w1) :=
    Builder_build selenium server proxy (capabilities !! toPropertyKey browser) w in
  let this1 := mkDriverObject (Some session) (_capabilities this) in
  Driver_driver selenium this env w
  = (Returns session, this1, window_maximize selenium session w1)
  /\ (forall env' w', Driver_driver selenium this1 env' w' = (Returns session, this1, w'))
  /\ (forall env' url w',
        Driver_get selenium this1 env' url w'
        = match session_get selenium session url w' with
          | (inr _, w2) => (Returns tt, this1, w2)
          | (inl e, w2) => (Throws (fromDriver e), this1, w2)
          end).
Proof.
  intros Hnone Hs Hp Hb. unfold Driver_driver at 1. rewrite Hnone, Hs, Hp, Hb.
  destruct (Builder_build selenium server proxy _ w) as [session w1].
  by repeat split.
Qed.

(** X21.  Without a usable configuration the first access builds nothing:
    when the browser name is missing or wrong the access ends the process
    with code 1, and when no hub URL is configured (and no direct
    connection) it throws; the object is left without a session and the
    world as it was. *)
Theorem session_is_not_built_without_configuration
    (this : DriverObject) (env : ConfigEnv) (w : World) :
  _driver this = None ->
  (forall e, Config.seleniumHubUrl env = Throws e ->
     Driver_driver selenium this env w = (Throws e, this, w))
  /\ (forall server proxy code printed,
        Config.seleniumHubUrl env = Returns server ->
        Config.webDriverProxy env = Returns proxy ->
        Config.browser env = Exits code printed ->
        Driver_driver selenium this env w = (Exits code printed, this, w)).
Proof.
  intros Hnone. unfold Driver_driver. rewrite Hnone. split.
  - by intros e ->.
  - by intros server proxy code printed -> -> ->.
Qed.

(** X22.  [quit] creates nothing and forgets nothing.  On an object without
    a session it returns without a call to selenium and without reading the
    configuration.  On an object with a session it quits that session and
    keeps it stored: a later access returns the session that was quit, and
    builds no new one. *)
Theorem quit_is_a_no_op_without_session_and_keeps_the_session
    (this : DriverObject) (w : World) :
  (_driver this = None -> Driver_quit selenium this w = (Returns tt, this, w))
  /\ (forall session, _driver this = Some session ->
        let '(outcome, this1, w1) := Driver_quit selenium this w in
        this1 = this
        /\ w1 = snd (session_quit selenium session w)
        /\ forall env' w',
             Driver_driver selenium this1 env' w' = (Returns session, this1, w')).
Proof.
  unfold Driver_quit. split.
  - by intros ->.
  - intros session Hs. rewrite Hs.
    destruct (session_quit selenium session w) as [[e|[]] w1];
      repeat split; intros; unfold Driver_driver; by rewrite Hs.
Qed.

(** X23.  [getCapabilities] asks the session once.  After a call that
    returned the capabilities, every later call returns the same without
    touching the world; a call whose fetch failed stores nothing, so the next
    call asks again. *)
Theorem capabilities_are_fetched_once
    (this : DriverObject) (env : ConfigEnv) (w : World) session :
  _driver this = Some session ->
  _capabilities this = None ->
  match session_getCapabilities selenium session w with
  | (inr fetched, w1) =>
      exists this1,
        Driver_getCapabilities selenium this env w = (Returns fetched, this1, w1)
        /\ _driver this1 = Some session
        /\ forall env' w',
             Driver_getCapabilities selenium this1 env' w' = (Returns fetched, this1, w')
  | (inl e, w1) =>
      Driver_getCapabilities selenium this env w = (Throws (fromDriver e), this, w1)
  end.
Proof.
  intros Hs Hc.
  assert (Driver_getCapabilities selenium this env w
          = match session_getCapabilities selenium session w with
            | (inr fetched, w1) =>
                (Returns fetched, mkDriverObject (Some session) (Some fetched), w1)
            | (inl e, w1) => (Throws (fromDriver e), this, w1)
            end) as Hcall.
  { unfold Driver_getCapabilities, Driver_driver. rewrite Hc, Hs.
    destruct (session_getCapabilities selenium session w) as [[e|fetched] w1];
      [reflexivity|].
    by rewrite Hs. }
  rewrite Hcall.
  destruct (session_getCapabilities selenium session w) as [[e|fetched] w1];
    [reflexivity|].
  eexists. split; [reflexivity|]. split; [reflexivity|].
  intros env' w'. reflexivity.
Qed.

End FacadeProperties.

(** * More of the operations *)

Section FusedAndNested.
Context {World : Type} (rt : Runtime World).

(** X24.  [clickSendKeys] repeats the click when the typing fails: when in
    the first attempt the element is enabled, the click succeeds and
    [sendKeys] fails with an error that is no invalid selector, the loop goes
    on, and when in the second attempt, within the budget, all three steps
    succeed, the call returns: the element has been clicked twice. *)
Theorem clickSendKeys_clicks_again_after_a_failed_typing
    (this : Element) (var_args : list string) (w : World)
    cond w0 w1 el w2 w3 w4 raw w5 w6 el' w7 w8 w9 w10 :
  timeoutCondition rt None w = (cond, w0) ->
  cond w0 = (true, w1) ->
  getElement rt this w1 = (inr (Elem el), w2) ->
  driver_isEnabled rt el w2 = (inr true, w3) ->
  driver_click rt el w3 = (inr tt, w4) ->
  driver_sendKeys rt el var_args w4 = (inl raw, w5) ->
  raised_cls raw <> InvalidSelectorError ->
  cond w5 = (true, w6) ->
  getElement rt this w6 = (inr (Elem el'), w7) ->
  driver_isEnabled rt el' w7 = (inr true, w8) ->
  driver_click rt el' w8 = (inr tt, w9) ->
  driver_sendKeys rt el' var_args w9 = (inr tt, w10) ->
  forall fuel,
    clickSendKeys rt this var_args fuel w
    = if decide (1 < fuel)%nat then Some (inr tt, w10) else None.
Proof.
  intros Htc Hc1 Hg1 He1 Hk1 Hs1 Hcls Hc2 Hg2 He2 Hk2 Hs2 fuel.
  set (L := clickSendKeys_loop rt this var_args).
  assert (loop_try L w1 = (inl (Throw (fromDriver raw)), w5)) as Hfirst.
  { cbn [L loop_try clickSendKeys_loop]. unfold bind at 1. rewrite Hg1.
    unfold bind, onElement, mapError, thrownFromDriver, ret.
    by rewrite He1, Hk1, Hs1. }
  assert (loop_try L w6 = (inr (Some tt), w10)) as Hsecond.
  { cbn [L loop_try clickSendKeys_loop]. unfold bind at 1. rewrite Hg2.
    unfold bind, onElement, mapError, thrownFromDriver, ret.
    by rewrite He2, Hk2, Hs2. }
  assert (exists kept,
            loop_catch L (getCleanStack (newErrorStack rt w)) (fromDriver raw)
            = Remember kept) as [kept Hkept].
  { cbn [L loop_catch clickSendKeys_loop]. unfold catchAnnotate, instanceof.
    rewrite bool_decide_eq_false_2 by done. by eexists. }
  pose proof (retryLoop_caught_once cond (loop_try L)
                (loop_catch L (getCleanStack (newErrorStack rt w)))
                ThrownUndefined w0 w1 _ kept w5 Hc1 Hfirst Hkept) as Hrun.
  unfold clickSendKeys, runRetryLoop.
  cbn [loop_timeout clickSendKeys_loop]. rewrite Htc. fold L.
  case_decide.
  - replace fuel with (1 + S (fuel - 2))%nat by lia.
    rewrite (retryLoop_retrying _ _ _ _ _ _ _ _ Hrun).
    by eapply retryLoop_returns.
  - eapply retryLoop_starved; [exact Hrun|lia].
Qed.

Context {equal_string : DeepStrictEqual string}.

(** X25.  [expectTextToBe] on an element that never resolves does not end as
    an assertion failure: the [retryGetText] of its first attempt uses up a
    budget of its own and throws the error of its last attempt, and
    [retryExpect] lets that through.  When in that last attempt [getElement]
    throws [e], no invalid selector, the caller sees [e] with the stack that
    [retryGetText] preserved: a resolution error as it is, the driver's
    message with the chain context; an error of the session getter with the
    chain appended.  The [failMessage] given is not part of it. *)
Theorem expectTextToBe_on_a_missing_element_throws_the_driver_error
    (this : Element) (expectedText : string) (failMessage : option string)
    (w : World) cond w0 w1 cond' w2 n wn wa e wb wc :
  let L := retryGetText_loop rt this in
  let preservedStack := getCleanStack (newErrorStack rt w1) in
  let thrown :=
    setStack (if getElementError e then e
              else appendMessage e (chainContext (chainedLocators this)))
             preservedStack in
  timeoutCondition rt None w = (cond, w0) ->
  cond w0 = (true, w1) ->
  timeoutCondition rt None w1 = (cond', w2) ->
  unsuccessful cond' (loop_try L) n w2 wn ->
  cond' wn = (true, wa) ->
  getElement rt this wa = (inl (Throw e), wb) ->
  cls e <> InvalidSelectorError ->
  cond' wb = (false, wc) ->
  forall fuel, (S n < fuel)%nat ->
    expectTextToBe rt this expectedText failMessage fuel w
    = Some (inl (ThrownError thrown), wc)
    /\ cls thrown = cls e
    /\ (resolutionFailure rt this e -> message thrown = message e)
    /\ (sessionFailure rt e ->
        message thrown = message e +:+ chainContext (chainedLocators this)).
Proof.
  intros L preservedStack thrown Htc Hc Htc' Hfail Hc' Hg Hcls Hend fuel Hfuel.
  assert (loop_try L wa = (inl (Throw e), wb)) as Htry.
  { cbn [L loop_try retryGetText_loop]. unfold bind at 1. by rewrite Hg. }
  assert (loop_catch L preservedStack e = Remember thrown) as Hk.
  { cbn [L loop_catch retryGetText_loop]. by apply catchAnnotate_keeps. }
  split; [|split; [|split]].
  - unfold expectTextToBe, retryExpect. cbn [opt_timeout]. rewrite Htc.
    destruct fuel as [|k]; [lia|]. cbn [retryExpect_loop]. rewrite Hc.
    unfold retryGetText, runRetryLoop. fold L.
    cbn [loop_timeout L retryGetText_loop]. rewrite Htc'. fold L preservedStack.
    destruct (unsuccessful_retrying rt L preservedStack cond' n w2 wn
                (op_retryGetText rt this) Hfail ThrownUndefined) as [exc Hprefix].
    assert (retrying cond' (loop_try L) (loop_catch L preservedStack)
              (n + 1) ThrownUndefined w2 (ThrownError thrown) wb) as Hrun.
    { eapply retrying_app; [exact Hprefix|]. by eapply retryLoop_caught_once. }
    replace (S k) with ((n + 1) + S (S k - n - 2))%nat by lia.
    rewrite (retryLoop_retrying _ _ _ _ _ _ _ _ Hrun).
    by erewrite retryLoop_elapsed.
  - by destruct (getElementError e).
  - intros Hres. subst thrown.
    by rewrite (resolutionFailure_marked rt this e Hres).
  - intros Hses. subst thrown.
    by destruct (sessionFailure_fresh rt e Hses) as [_ ->].
Qed.

End FusedAndNested.

Section DocumentCollections.
Context {World : Type} (rt : Runtime World).
Context {equal_texts : DeepStrictEqual (list string)}.

(** X26.  The document-scoped collection.  [ElementAll.findElements] goes
    through the session getter and makes one call to the session; it is not
    retried: a failure of either is thrown at once as it was raised.
    [ElementAll.getSortedElementsTexts] returns the texts read in ascending
    order, and [expectSortedListToBe] succeeds on the first attempt within
    both budgets for every expected array that is a rearrangement of the
    texts read. *)
Theorem document_collection_sorts_and_compares
    (this : ElementAll) (w : World) :
  (forall a wg,
     webDriver_driver rt w = (inl a, wg) ->
     ElementAll_findElements rt this w = (inl a, wg))
  /\ (forall session wg raw w1,
        webDriver_driver rt w = (inr session, wg) ->
        driver_findElements rt Session (all_ownLocator this) wg = (inl raw, w1) ->
        ElementAll_findElements rt this w = (inl (Throw (fromDriver raw)), w1))
  /\ (forall session wg found w1 texts w2,
        webDriver_driver rt w = (inr session, wg) ->
        driver_findElements rt Session (all_ownLocator this) wg = (inr found, w1) ->
        getTexts rt found w1 = (inr texts, w2) ->
        ElementAll_getSortedElementsTexts rt this w = (inr (Array_sort texts), w2)
        /\ Sorted String.le (Array_sort texts)
        /\ Array_sort texts ≡ₚ texts)
  /\ (forall (list_ : nat) failMessage (heap : list (list string))
             cond w0 w1 cond' w2 w3 session wg found w4 texts w5 expected,
        timeoutCondition rt None w = (cond, w0) ->
        cond w0 = (true, w1) ->
        timeoutCondition rt None w1 = (cond', w2) ->
        cond' w2 = (true, w3) ->
        webDriver_driver rt w3 = (inr session, wg) ->
        driver_findElements rt Session (all_ownLocator this) wg = (inr found, w4) ->
        getTexts rt found w4 = (inr texts, w5) ->
        heap !! list_ = Some expected ->
        expected ≡ₚ texts ->
        forall fuel, (0 < fuel)%nat ->
          snd (expectSortedListToBe rt this list_ failMessage fuel heap w)
          = Some (inr tt, w5)).
Proof.
  assert (forall w session wg found w1 texts w2,
            webDriver_driver rt w = (inr session, wg) ->
            driver_findElements rt Session (all_ownLocator this) wg = (inr found, w1) ->
            getTexts rt found w1 = (inr texts, w2) ->
            ElementAll_getSortedElementsTexts rt this w
            = (inr (Array_sort texts), w2)) as Hsorts.
  { intros w' session wg found w1 texts w2 Hg Hf Ht.
    unfold ElementAll_getSortedElementsTexts, bind, mapError, ret.
    by rewrite Hg, Hf, Ht. }
  split; [|split; [|split]].
  - intros a wg Hg. unfold ElementAll_findElements, bind. by rewrite Hg.
  - intros session wg raw w1 Hg Hf.
    unfold ElementAll_findElements, bind, mapError, thrownFromDriver.
    by rewrite Hg, Hf.
  - intros session wg found w1 texts w2 Hg Hf Ht.
    split; [by eapply Hsorts|].
    split; [apply Array_sort_Sorted | apply Array_sort_Permutation].
  - intros list_ failMessage heap cond w0 w1 cond' w2 w3 session wg found w4 texts w5
           expected Htc Hc Htc' Hc' Hg Hf Ht Hl Hperm fuel Hfuel.
    destruct fuel as [|k]; [lia|].
    unfold expectSortedListToBe. cbn [snd].
    rewrite list_lookup_alter_eq, Hl. cbn [fmap option_fmap option_map default].
    unfold retryExpect. cbn [opt_timeout opt_message opt_concatenateMessages].
    rewrite Htc. cbn [retryExpect_loop]. rewrite Hc.
    unfold ElementAll_retryGetSortedElementsTexts, runRetryLoop.
    cbn [loop_timeout ElementAll_retryGetSortedElementsTexts_loop].
    rewrite Htc'.
    erewrite retryLoop_returns; [| exact Hc' |].
    2:{ cbn [loop_try ElementAll_retryGetSortedElementsTexts_loop]. unfold bind at 1.
        rewrite (Hsorts _ _ _ _ _ _ _ Hg Hf Ht). reflexivity. }
    rewrite (Array_sort_reordered _ _ Hperm).
    by rewrite deepStrictEqual_same.
Qed.

End DocumentCollections.

Section EndOfTheProcess.
Context {World : Type} (rt : Runtime World).

(** X27.  The end of the process is no failure to retry.  Whatever the loop:
    after any [n] iterations that stayed in the loop, when the next attempt
    is within the budget and ends the process, the call ends with it at
    once: the [catch] block does not run, the clock is not read again and
    nothing is thrown to the caller.  For the operations on an element this
    happens when the Driver object has no session yet and [Config.browser]
    ends the process: the session getter ends it, and so do [getElement],
    [isPresent] and the [try] body of every annotating operation. *)
Theorem process_exit_ends_a_retry_loop :
  (forall (L : RetryLoop World) (w : World) cond w0 n exc wn w1 code printed w2,
     timeoutCondition rt (loop_timeout L) w = (cond, w0) ->
     retrying cond (loop_try L) (loop_catch L (getCleanStack (newErrorStack rt w)))
              n ThrownUndefined w0 exc wn ->
     cond wn = (true, w1) ->
     loop_try L w1 = (inl (Exit code printed), w2) ->
     forall fuel,
       runRetryLoop rt L fuel w
       = if decide (n < fuel)%nat
         then Some (inl (ProcessExit code printed), w2)
         else None)
  /\ (forall (w : World) server proxy code printed,
        _driver (driverObject rt w) = None ->
        Config.seleniumHubUrl (configuration rt w) = Returns server ->
        Config.webDriverProxy (configuration rt w) = Returns proxy ->
        Config.browser (configuration rt w) = Exits code printed ->
        webDriver_driver rt w = (inl (Exit code printed), w))
  /\ (forall (this : Element) (w : World) code printed w',
        webDriver_driver rt w = (inl (Exit code printed), w') ->
        getElement rt this w = (inl (Exit code printed), w')
        /\ isPresent rt this w = (inl (Exit code printed), w')
        /\ forall L action,
             Annotating rt L this action ->
             loop_try L w = (inl (Exit code printed), w')).
Proof.
  split; [|split].
  - intros L w cond w0 n exc wn w1 code printed w2 Htc Hrun Hc He fuel.
    unfold runRetryLoop. rewrite Htc.
    case_decide as Hfuel.
    + replace fuel with (n + S (fuel - n - 1))%nat by lia.
      rewrite (retryLoop_retrying _ _ _ _ _ _ _ _ Hrun).
      cbn [retryLoop]. by rewrite Hc, He.
    + eapply retryLoop_starved; [exact Hrun|lia].
  - intros w server proxy code printed Hnone Hs Hp Hb.
    unfold webDriver_driver, Driver_driver. by rewrite Hnone, Hs, Hp, Hb.
  - intros this w code printed w' Hg.
    assert (getElement rt this w = (inl (Exit code printed), w')) as Hget.
    { unfold getElement, bind. by rewrite Hg. }
    split; [exact Hget|]. split.
    + unfold isPresent, tryCatch, bind. by rewrite Hget.
    + intros L action HA.
      destruct (Annotating_shape rt L this action HA) as [-> _].
      unfold bind. by rewrite Hget.
Qed.

End EndOfTheProcess.

(** * The properties at work in the scripted world *)

(** Runs the program on a closed input. *)
Ltac run := vm_compute; reflexivity.


Lemma invalid_selector_witness :
  click scripted Examples.link (Some 250%Z) 2
    (Examples.world [RError Examples.noSuchElement; RError Examples.invalidSelector;
                     RElement 7; RBool true; RDone])
  = Some (inl (ThrownError
                 (mkJsError InvalidSelectorError
                    ("invalid selector" +:+ chainContext [ByFactory.css "a"])
                    None true)),
          Examples.worldAt 200 [RElement 7; RBool true; RDone]).
Proof.
  unfold click.
  eapply eq_trans.
  - eapply (invalid_selector_is_thrown_at_once scripted) with (n := 1%nat).
    + constructor.
    + run.
    + eapply retrying_caught; [run | run | run |].
      apply retrying_done.
    + run.
    + run.
    + run.
  - run.
Defined.

Lemma retryExpect_returns_on_first_equal_witness :
  expectTextToBe scripted (equal_string := plainEqual string) Examples.link "done" None 5
    (Examples.world [RElement 1; RText "loading"; RElement 1; RText "done";
                     RElement 1; RText "gone"])
  = Some (inr tt, Examples.worldAt 400 [RElement 1; RText "gone"]).
Proof.
  unfold expectTextToBe.
  eapply eq_trans.
  - eapply (retryExpect_returns_on_first_equal scripted) with (n := 1%nat).
    + run.
    + eapply mismatching_next; [run | run | discriminate |].
      apply mismatching_done.
    + run.
    + run.
  - run.
Defined.

(** C4 as stated fails: the first resolution fails with an error that is
    neither not-found nor stale (nor an invalid selector), and the call does
    not throw it: it tries again and, the element being gone by then, returns
    successfully. *)
Lemma waitForNotPresent_other_failure_is_retried :
  let w := Examples.world [RError Examples.unknownError; RError Examples.noSuchElement] in
  getElement scripted Examples.link w
  = (inl (Throw (mkJsError WebDriverError
                   ("unknown error" +:+ chainContext [ByFactory.css "a"]) None true)),
     Examples.worldAt 100 [RError Examples.noSuchElement])
  /\ waitForNotPresent scripted Examples.link 2 w
     = Some (inr tt, Examples.worldAt 200 []).
Proof. split; run. Qed.

Lemma waitForNotPresent_on_resolution_failure_witness :
  waitForNotPresent scripted Examples.link 2
    (mkScript 0 0 20000 None [RError Examples.unknownError])
  = Some (inl (ThrownError
                 (mkJsError WebDriverError
                    ("unknown error" +:+ chainContext [ByFactory.css "a"]) None true)),
          mkScript 20000 0 20000 None []).
Proof.
  edestruct (waitForNotPresent_on_resolution_failure scripted Examples.link
               (mkScript 0 0 20000 None [RError Examples.unknownError]))
    with (n := 0%nat) as (_ & _ & Hother).
  - run.
  - apply retrying_done.
  - run.
  - run.
  - destruct Hother as [_ Hthrow]; [discriminate..|].
    eapply eq_trans; [apply Hthrow; run | run].
Defined.

Lemma derived_chain_witness :
  let heap : ArrayHeap := [[ByFactory.css "form"]] in
  let p := mkElementObject (Some (ByFactory.css "form")) 0 in
  (object_chainedLocators p < length heap)%nat
  /\ let '(c, heap1) := Element_dollar p "ul" heap in
     let '(d, heap2) := Element_dollar c "li" heap1 in
     chainOf heap2 p = [ByFactory.css "form"]
     /\ chainOf heap2 d = [ByFactory.css "form"; ByFactory.css "ul"; ByFactory.css "li"].
Proof.
  intros heap p.
  assert (object_chainedLocators p < length heap)%nat as Hp by (cbn; lia).
  split; [exact Hp|].
  destruct (derived_chain_extends_parent_and_leaves_it_alone heap p "ul" "li" Hp)
    as [Hchain _].
  destruct (Element_dollar p "ul" heap) as [c heap1].
  destruct (Element_dollar c "li" heap1) as [d heap2].
  destruct Hchain as (_ & _ & Hp2 & _ & _ & _ & _ & Hd & _).
  split; [exact Hp2 | exact Hd].
Defined.

Lemma sorted_texts_ignore_discovery_order_witness :
  let items := mkChainedElementAll Examples.link (ByFactory.css "li") in
  getSortedElementsTexts scripted items
    (Examples.world [RElement 1; RElements [10; 11; 12];
                     RText "Zebra"; RText "Apple"; RText "Mango"])
  = (inr ["Apple"; "Mango"; "Zebra"], Examples.worldAt 500 [])
  /\ snd (expectSortedListToEqual scripted (equal_texts := plainEqual (list string))
            items 0 None 1 [["b"; "a"]]
            (Examples.world [RElement 1; RElements [10; 11]; RText "a"; RText "b"]))
     = Some (inr tt, Examples.worldAt 400 [])
  /\ snd (expectSortedListToEqual scripted (equal_texts := plainEqual (list string))
            items 0 None 1 [["b"; "a"]]
            (Examples.world [RElement 1; RElements [11; 10]; RText "b"; RText "a"]))
     = Some (inr tt, Examples.worldAt 400 []).
Proof.
  intros items.
  pose proof (sorted_texts_ignore_discovery_order scripted
                (equal_texts := plainEqual (list string))) as [Hsorted Hexpect].
  split; [|split].
  - eapply eq_trans; [eapply Hsorted; run | run].
  - eapply Hexpect with (texts := ["a"; "b"]);
      [run | run | run | run | run | run | run | apply perm_swap | lia].
  - eapply Hexpect with (texts := ["b"; "a"]);
      [run | run | run | run | run | run | run | reflexivity | lia].
Defined.

Lemma expected_array_is_sorted_in_place_witness :
  let items := mkChainedElementAll Examples.link (ByFactory.css "li") in
  let after :=
    fst (expectSortedListToEqual scripted (equal_texts := plainEqual (list string))
           items 1 None 0 [["x"]; ["b"; "a"]] (Examples.world [])) in
  after = [["x"]; ["a"; "b"]] /\ after !! 1%nat <> Some ["b"; "a"].
Proof.
  intros items after.
  split; [run|].
  destruct (expected_array_is_sorted_in_place scripted
              (equal_texts := plainEqual (list string))
              items (xx "li") 1 None 0 [["x"]; ["b"; "a"]] (Examples.world []))
    as (_ & _ & _ & Hchanged).
  apply (Hchanged ["b"; "a"]); [run|].
  apply (proj1 (bool_decide_eq_false _)). run.
Defined.

(** C9 as stated fails for the budget 0: the first check comes in the
    millisecond of the reading at entry, [0 <= 0] holds, and the loop makes an
    attempt, here a successful one. *)
Lemma zero_budget_still_attempts :
  retryGetElement scripted Examples.link (Some 0%Z) 1 (Examples.world [RElement 1])
  = Some (inr (Elem 1), Examples.worldAt 100 []).
Proof. run. Qed.

Lemma exhausted_budget_witness :
  let late := mkScript 0 1 100 None [RElement 1] in
  retryGetElement scripted Examples.link (Some 0%Z) 1 late
  = Some (inl ThrownUndefined, mkScript 2 1 100 None [RElement 1])
  /\ retryExpect scripted (equal := plainEqual bool)
       (fun w => Some (mapError uncaught (isPresent scripted Examples.link) w))
       true (mkExpectOptions None (Some 0%Z) false) 1 late
     = Some (inl (ThrownError undefinedMessageError), mkScript 2 1 100 None [RElement 1])
  /\ click scripted Examples.link (Some 250%Z) 3
       (Examples.world [RElement 1; RBool false; RElement 1; RBool false])
     = Some (inl ThrownUndefined, Examples.worldAt 400 []).
Proof.
  intros late.
  destruct (exhausted_budget_throws_no_recorded_failure scripted)
    as (Hloop & Hexpect & Hclick).
  split; [|split].
  - eapply (Hloop (retryGetElement_loop scripted Examples.link (Some 0%Z)));
      [run | run | lia].
  - eapply Hexpect; [run | run | lia | by left].
  - eapply eq_trans.
    + eapply Hclick with (n := 2%nat).
      * run.
      * eapply neverEnabled_next; [run | run | run |].
        eapply neverEnabled_next; [run | run | run |].
        apply neverEnabled_done.
      * run.
    + run.
Defined.


(** The same absence in [retryFindElements], whose [catch] block lacks the
    line its siblings have: an error of its [findElements] step escapes
    without context. *)
Lemma retryFindElements_error_has_no_chain_context :
  retryFindElements scripted Examples.link (ByFactory.css "li") 2
    (mkScript 0 0 20000 None [RElement 1; RError Examples.staleElement])
  = Some (inl (ThrownError
                 (mkJsError StaleElementReferenceError "stale element reference"
                            None false)),
          mkScript 40000 0 20000 None []).
Proof. run. Qed.

(** And [Element.findElements] appends to an error that [getElement] has
    already annotated and marked: the context is there twice. *)
Lemma Element_findElements_appends_twice :
  Element_findElements scripted Examples.link (ByFactory.css "li")
    (Examples.world [RError Examples.noSuchElement])
  = (inl (Throw (mkJsError NoSuchElementError
                   ("no such element" +:+ chainContext [ByFactory.css "a"]
                      +:+ chainContext [ByFactory.css "a"]
                      +:+ " All: By(css selector, li)")
                   None true)),
     Examples.worldAt 100 []).
Proof. run. Qed.


(** * The further properties at work *)

(** Settles a decidable closed proposition by evaluation. *)
Ltac decided := apply (bool_decide_unpack _); vm_compute; exact I.

Lemma budget_predicate_witness :
  let cond := fst (timeoutCondition scripted (Some 250%Z) (Examples.worldAt 1000 [])) in
  fst (cond (Examples.worldAt 1250 [])) = true
  /\ fst (cond (Examples.worldAt 1251 [])) = false
  /\ (fst (cond (Examples.worldAt 1251 [])) = false ->
      fst (cond (Examples.worldAt 2000 [])) = false).
Proof.
  intros cond.
  destruct (budget_predicate_is_monotone scripted (Some 250%Z)
              (Examples.worldAt 1000 []) 1000%Z (Examples.worldAt 1000 []) cond)
    as [Hverdict Hmono]; [run | run |].
  split; [|split].
  - erewrite Hverdict; [|run]. run.
  - erewrite Hverdict; [|run]. run.
  - eapply (Hmono (Examples.worldAt 1251 []) 1251%Z _ (Examples.worldAt 2000 []) 2000%Z);
      [run | run | lia].
Defined.

Lemma retry_returns_the_first_success_witness :
  retryGetText scripted Examples.link 3
    (Examples.world [RError Examples.noSuchElement; RElement 1; RText "Welcome";
                     RElement 1; RText "later"])
  = Some (inr "Welcome", Examples.worldAt 300 [RElement 1; RText "later"]).
Proof.
  unfold retryGetText.
  eapply eq_trans.
  - eapply (retry_returns_the_first_success scripted) with (n := 1%nat).
    + run.
    + eapply retrying_caught; [run | run | run |]. apply retrying_done.
    + run.
    + run.
  - run.
Defined.

Lemma retry_loop_ends_witness :
  is_Some (retryExecuteScript scripted "return document.title" [] 17
             (mkScript 0 1000 5 None [RError Examples.unknownError])).
Proof.
  unfold retryExecuteScript.
  apply (retry_loop_ends_on_an_advancing_clock scripted
           (retryExecuteScript_loop scripted "return document.title" [])
           clock (fun w => tick w = 1000%Z /\ (0 <= latency w)%Z) 1000%Z 0%Z).
  - lia.
  - lia.
  - intros w [Ht Hl]. cbn. rewrite Ht. repeat split; [done | lia].
  - intros w [Ht Hl]. cbn [loop_try retryExecuteScript_loop].
    unfold bind, mapError, ret, thrownFromDriver, webDriver_driver.
    cbn -[answer Z.add Z.le Z.lt]. unfold answer.
    destruct (responses w) as [|r rest]; [cbn; by (split; [|lia])|].
    destruct r; cbn; (split; [done|lia]).
  - cbn. split; [done|lia].
  - vm_compute. lia.
Defined.

Lemma retryExpect_failure_message_witness :
  expectTextToBe scripted (equal_string := plainEqual string) Examples.link
    "done" (Some "the job should end") 3
    (mkScript 0 0 4000 None [RElement 1; RText "loading"; RElement 1; RText "busy"])
  = Some (inl (ThrownError
                 (mkJsError AssertionError
                    ("the job should end" +:+ String newline
                       "Expected values to be strictly deep-equal") None false)),
          mkScript 16000 0 4000 None []).
Proof.
  unfold expectTextToBe.
  eapply eq_trans.
  - eapply (retryExpect_failure_message scripted) with (n := 1%nat) (actual := "busy").
    + run.
    + eapply mismatching_next; [run | run | discriminate |].
      apply mismatching_done.
    + run.
    + run.
    + discriminate.
    + run.
  - run.
Defined.

Lemma retryExpect_throwing_operation_witness :
  expectTextToBe scripted (equal_string := plainEqual string) Examples.link
    "done" None 2
    (Examples.world [RElement 1; RText "loading"; RError Examples.invalidSelector;
                     RElement 1; RText "done"])
  = Some (inl (ThrownError
                 (mkJsError InvalidSelectorError
                    ("invalid selector" +:+ chainContext [ByFactory.css "a"])
                    None true)),
          Examples.worldAt 300 [RElement 1; RText "done"]).
Proof.
  unfold expectTextToBe.
  eapply eq_trans.
  - eapply (retryExpect_does_not_retry_a_throwing_operation scripted) with (n := 1%nat).
    + run.
    + eapply mismatching_next; [run | run | discriminate |].
      apply mismatching_done.
    + run.
    + run.
  - run.
Defined.

Lemma click_once_enabled_witness :
  click scripted Examples.link (Some 5000%Z) 3
    (mkScript 0 0 1000 None
       [RElement 1; RBool false; RElement 1; RBool false;
        RElement 1; RBool true; RDone; RDone])
  = Some (inr tt, mkScript 7000 0 1000 None [RDone]).
Proof.
  eapply eq_trans.
  - eapply (click_clicks_once_the_element_is_enabled scripted) with (n := 2%nat).
    + run.
    + eapply neverEnabled_next; [run | run | run |].
      eapply neverEnabled_next; [run | run | run |].
      apply neverEnabled_done.
    + run.
    + run.
    + run.
    + run.
  - run.
Defined.

Lemma clickTillAttributeEqual_witness :
  clickTillAttributeEqual scripted Examples.link "value" "done" 1
    (Examples.world [RElement 1; RDone; RAttribute (Some "undone"); RDone])
  = Some (inr tt, Examples.worldAt 300 [RDone]).
Proof.
  edestruct (clickTillAttributeEqual_returns_when_attribute_contains_value
               scripted Examples.link "value" "done"
               (Examples.world [RElement 1; RDone; RAttribute (Some "undone"); RDone]))
    with (n := 0%nat) as [Hreturns _].
  - run.
  - apply retrying_done.
  - run.
  - run.
  - run.
  - run.
  - eapply eq_trans; [eapply Hreturns; [reflexivity | run] | run].
Defined.

Lemma getElement_of_an_extended_chain_witness :
  let form := mkElement (Some (ByFactory.css "form")) [ByFactory.css "form"] in
  let input :=
    mkElement (Some (ByFactory.css "input")) [ByFactory.css "form"; ByFactory.css "input"] in
  getElement scripted input (Examples.world [RElement 1; RError Examples.noSuchElement])
  = (inl (Throw (mkJsError NoSuchElementError
                   ("no such element"
                      +:+ chainContext [ByFactory.css "form"; ByFactory.css "input"])
                   None true)),
     Examples.worldAt 200 [])
  /\ getElement scripted (mkElement None []) (Examples.world [RElement 1])
     = (inr Session, Examples.world [RElement 1])
  /\ webDriver_driver scripted (Examples.world []) = (inr 0%nat, Examples.world []).
Proof.
  intros form input.
  destruct (getElement_of_an_extended_chain scripted
              (Some (ByFactory.css "form")) (Some (ByFactory.css "input"))
              [ByFactory.css "form"] (ByFactory.css "input")
              (Examples.world [RElement 1; RError Examples.noSuchElement]))
    as (Hextended & _ & _).
  destruct (getElement_of_an_extended_chain scripted None None [] (ByFactory.css "a")
              (Examples.world [RElement 1])) as (_ & Hempty & _).
  destruct (getElement_of_an_extended_chain scripted None None [] (ByFactory.css "a")
              (Examples.world [])) as (_ & _ & Hstored).
  split; [|split].
  - eapply eq_trans; [exact Hextended | run].
  - eapply eq_trans; [exact Hempty | run].
  - eapply eq_trans; [apply (Hstored 0%nat); run | run].
Defined.

Lemma getTexts_reads_in_order_witness :
  getTexts scripted [10; 11; 12]
    (Examples.world [RText "a"; RError Examples.staleElement; RText "c"])
  = (inl (Throw (fromDriver Examples.staleElement)), Examples.worldAt 200 [RText "c"])
  /\ getTexts scripted [10] (Examples.world [RText "a"; RText "b"])
     = (inr ["a"], Examples.worldAt 100 [RText "b"])
  /\ length ["a"; "b"] = length [10; 11].
Proof.
  destruct (getTexts_reads_in_order scripted [10; 11] [12]
              (Examples.world [RText "a"; RError Examples.staleElement; RText "c"]))
    as (_ & _ & Happ & _).
  destruct (getTexts_reads_in_order scripted [10; 11] []
              (Examples.world [RText "a"; RText "b"])) as (_ & Hone & _ & Hlen).
  split; [|split].
  - eapply eq_trans; [exact Happ | run].
  - eapply eq_trans; [apply Hone | run].
  - eapply Hlen. run.
Defined.

Lemma expectToBePresent_witness :
  expectToBePresent scripted (equal_bool := plainEqual bool) Examples.link
    (Some "x") (Some 250%Z) 3
    (mkScript 0 0 200 None [RError Examples.noSuchElement; RError Examples.noSuchElement])
  = Some (inl (ThrownError
                 (mkJsError AssertionError
                    ("x" +:+ String newline
                       " Expected element to be present By(css selector, a)")
                    None false)),
          mkScript 400 0 200 None []).
Proof.
  edestruct (expectToBePresent_reports_an_element_never_found scripted
               (equal_bool := plainEqual bool) Examples.link (Some "x") (Some 250%Z)
               (mkScript 0 0 200 None
                  [RError Examples.noSuchElement; RError Examples.noSuchElement]))
    with (n := 2%nat) as [Hthrows _].
  - run.
  - eapply neverFound_next; [run | run | by left |].
    eapply neverFound_next; [run | run | by left |].
    apply neverFound_done.
  - run.
  - eapply eq_trans; [apply Hthrows | run].
Defined.

Lemma expectToBeNotPresent_witness :
  expectToBeNotPresent scripted (equal_bool := plainEqual bool) Examples.link
    None None 2
    (Examples.world [RElement 1; RError Examples.staleElement; RElement 1])
  = Some (inr tt, Examples.worldAt 200 [RElement 1])
  /\ expectToBeNotPresent scripted (equal_bool := plainEqual bool) Examples.link
       None None 2
       (Examples.world [RElement 1; RError Examples.unknownError; RElement 1])
     = Some (inl (ThrownError
                    (mkJsError WebDriverError
                       ("unknown error" +:+ chainContext [ByFactory.css "a"])
                       None true)),
             Examples.worldAt 200 [RElement 1]).
Proof.
  split.
  - edestruct (expectToBeNotPresent_ends_on_the_first_resolution_failure scripted
                 (equal_bool := plainEqual bool) Examples.link None None
                 (Examples.world [RElement 1; RError Examples.staleElement; RElement 1]))
      with (n := 1%nat) as [Hgone _].
    + run.
    + eapply mismatching_next; [run | run | discriminate |].
      apply mismatching_done.
    + run.
    + run.
    + eapply eq_trans; [apply Hgone; by right | run].
  - edestruct (expectToBeNotPresent_ends_on_the_first_resolution_failure scripted
                 (equal_bool := plainEqual bool) Examples.link None None
                 (Examples.world [RElement 1; RError Examples.unknownError; RElement 1]))
      with (n := 1%nat) as [_ Hfatal].
    + run.
    + eapply mismatching_next; [run | run | discriminate |].
      apply mismatching_done.
    + run.
    + run.
    + eapply eq_trans; [apply Hfatal; discriminate | run].
Defined.

Lemma retryExecuteScript_witness :
  retryExecuteScript scripted "return 1" [] 3
    (mkScript 0 0 8000 (Some "Error
    at test.ts:1") [RError Examples.unknownError; RError Examples.invalidSelector])
  = Some (inl (ThrownError (fromDriver Examples.invalidSelector)),
          mkScript 16000 0 8000 (Some "Error
    at test.ts:1") [])
  /\ retryExecuteScript unconfigured "return 1" [] 2 (mkScript 0 10000 0 None [])
     = Some (inl (ThrownError
                    (mkJsError (OtherErrorClass "Error")
                       ("Configuration property " +:+ quote +:+ "seleniumHubUrl"
                          +:+ quote +:+ " is not defined") None false)),
             mkScript 30000 10000 0 None []).
Proof.
  split.
  - eapply eq_trans.
    + eapply (retryExecuteScript_keeps_every_error scripted) with (n := 1%nat).
      * run.
      * eapply failing_caught; [run | run | run |]. apply failing_done.
      * run.
      * right. eexists _, _, _. split; [run|]. split; [run | reflexivity].
      * run.
    + run.
  - eapply eq_trans.
    + eapply (retryExecuteScript_keeps_every_error unconfigured) with (n := 0%nat).
      * run.
      * apply failing_done.
      * run.
      * left. run.
      * run.
    + run.
Defined.

Lemma own_locator_witness :
  let heap : ArrayHeap := [[ByFactory.css "ul"; ByFactory.css "li"]; []] in
  (let '(obj, heap1) := Element_constructor (inr 0%nat) heap in
   wellFormed heap1 obj
   /\ chainOf heap1 obj = [ByFactory.css "ul"; ByFactory.css "li"])
  /\ (let '(obj, heap1) := Element_constructor (inr 1%nat) heap in
      currentLocator obj = inl (mkJsError TypeError "Locator is null" None false)).
Proof.
  intros heap.
  destruct (own_locator_is_the_last_of_the_chain heap) as (_ & Harray & _).
  split.
  - pose proof (Harray 0%nat ltac:(cbn; lia)) as H.
    destruct (Element_constructor (inr 0%nat) heap) as [obj heap1].
    destruct H as (Hwf & Hchain & _). split; [exact Hwf | exact Hchain].
  - pose proof (Harray 1%nat ltac:(cbn; lia)) as H.
    destruct (Element_constructor (inr 1%nat) heap) as [obj heap1].
    destruct H as (_ & _ & Hnull). apply Hnull. reflexivity.
Defined.

Lemma element_of_an_element_witness :
  let heap : ArrayHeap := [[ByFactory.css "form"];
                           [ByFactory.css "table"; ByFactory.css "td"]] in
  let p := mkElementObject (Some (ByFactory.css "form")) 0 in
  let other := mkElementObject (Some (ByFactory.css "td")) 1 in
  wellFormed heap other
  /\ exists c heap1,
       Element_element p (inr other) heap = (inr c, heap1)
       /\ chainOf heap1 c = [ByFactory.css "form"; ByFactory.css "td"].
Proof.
  intros heap p other.
  assert (wellFormed heap other) as Hwf by (split; [cbn; lia | reflexivity]).
  split; [exact Hwf|].
  pose proof (element_of_an_element_takes_its_own_locator heap p other Hwf) as H.
  change (last (chainOf heap other)) with (Some (ByFactory.css "td")) in H.
  destruct H as (c & heap1 & Hcall & Hchain & _).
  exists c, heap1. split; [exact Hcall | exact Hchain].
Defined.

Lemma getCleanStack_drops_witness :
  exists out,
    getCleanStack (Some "Error
    at Element.click (driver.ts:208)
    at test.ts:1") = Some out
    /\ split_lines out = ["Error"; "    at test.ts:1"].
Proof.
  destruct (getCleanStack_drops_the_lines_of_driver_ts "Error
    at Element.click (driver.ts:208)
    at test.ts:1") as (out & Hout & Hlines & _); [discriminate|].
  exists out. split; [exact Hout|].
  eapply eq_trans; [apply Hlines; vm_compute; discriminate | run].
Defined.

Lemma getCleanStack_keeps_witness :
  getCleanStack (Some "Error
    at test.ts:1") = Some "Error
    at test.ts:1".
Proof.
  apply getCleanStack_keeps_a_stack_without_driver_ts; [discriminate|].
  vm_compute. repeat constructor.
Defined.

Lemma seleniumHubUrl_witness :
  Config.seleniumHubUrl
    (mkConfigEnv None (<["directConnect" := CBool true]> ∅))
  = Returns (CString "")
  /\ Config.seleniumHubUrl
       (mkConfigEnv None (<["seleniumHubUrl" := CString "http://hub:4444/wd/hub"]> ∅))
     = Returns (CString "http://hub:4444/wd/hub").
Proof.
  split.
  - destruct (seleniumHubUrl_is_empty_under_direct_connect
                (mkConfigEnv None (<["directConnect" := CBool true]> ∅)))
      as [Hdirect _].
    apply (Hdirect (CBool true)); run.
  - destruct (seleniumHubUrl_is_empty_under_direct_connect
                (mkConfigEnv None
                   (<["seleniumHubUrl" := CString "http://hub:4444/wd/hub"]> ∅)))
      as (_ & Hhub & _).
    destruct Hhub as [Hurl _]; [left; run|].
    apply Hurl. run.
Defined.

Lemma browser_witness :
  Config.browser (mkConfigEnv (Some "firefox") (<["browser" := CString "opera"]> ∅))
  = Returns (CString "firefox")
  /\ Config.browser (mkConfigEnv None ∅) = Exits 1 browserNotSet
  /\ Config.browser (mkConfigEnv (Some "opera") (<["browser" := CString "chrome"]> ∅))
     = Exits 1 browserIncorrect.
Proof.
  split; [|split].
  - destruct (browser_comes_from_the_command_line_first
                (mkConfigEnv (Some "firefox") (<["browser" := CString "opera"]> ∅)))
      as [Hargv _].
    destruct (Hargv "firefox") as [Halias _]; [reflexivity | discriminate |].
    apply Halias. decided.
  - destruct (browser_comes_from_the_command_line_first (mkConfigEnv None ∅))
      as (_ & Hconfig & _).
    destruct Hconfig as [Hmissing _]; [reflexivity|].
    apply Hmissing. run.
  - destruct (browser_comes_from_the_command_line_first
                (mkConfigEnv (Some "opera") (<["browser" := CString "chrome"]> ∅)))
      as [Hargv _].
    destruct (Hargv "opera") as [_ Hwrong]; [reflexivity | discriminate |].
    apply Hwrong. decided.
Defined.

Lemma browsers_witness :
  Config.browsers
    (mkConfigEnv None (<["browsers" := CList ["chrome"; "safari"]]> ∅))
  = Returns ["chrome"; "safari"]
  /\ Config.browsers
       (mkConfigEnv None (<["browsers" := CList ["chrome"; "opera"]]> ∅))
     = Exits 1 browsersIncorrect.
Proof.
  split.
  - destruct (browsers_are_checked_one_by_one
                (mkConfigEnv None (<["browsers" := CList ["chrome"; "safari"]]> ∅)))
      as [_ Hlist].
    destruct (Hlist ["chrome"; "safari"]) as [Hok _]; [run|].
    apply Hok. repeat constructor; decided.
  - destruct (browsers_are_checked_one_by_one
                (mkConfigEnv None (<["browsers" := CList ["chrome"; "opera"]]> ∅)))
      as [_ Hlist].
    destruct (Hlist ["chrome"; "opera"]) as [_ Hbad]; [run|].
    apply Hbad. apply Exists_cons_tl, Exists_cons_hd. decided.
Defined.

Lemma session_is_built_once_witness :
  let env := mkConfigEnv (Some "chrome") (<["directConnect" := CBool true]> ∅) in
  let this1 := mkDriverObject (Some 0%nat) None in
  Driver_driver logged (mkDriverObject None None) env []
  = (Returns 0%nat, this1, ["build  chrome"; "maximize"])
  /\ Driver_driver logged this1 (mkConfigEnv None ∅) ["build  chrome"; "maximize"]
     = (Returns 0%nat, this1, ["build  chrome"; "maximize"]).
Proof.
  intros env this1.
  pose proof (session_is_built_on_first_access_only logged
                (mkDriverObject None None) env []
                (CString "") (CString "") (CString "chrome")
                eq_refl ltac:(run) ltac:(run) ltac:(run)) as H.
  change (Builder_build logged (CString "") (CString "")
            (capabilities !! toPropertyKey (CString "chrome")) [])
    with (0%nat, ["build " +:+ "" +:+ " "
                    +:+ from_option browserName "none" (capabilities !! "chrome")])
    in H.
  cbn beta iota in H. destruct H as (Hfirst & Hlater & _).
  split.
  - eapply eq_trans; [exact Hfirst | run].
  - apply Hlater.
Defined.

Lemma session_is_not_built_witness :
  Driver_driver logged (mkDriverObject None None) (mkConfigEnv (Some "chrome") ∅) []
  = (Throws (mkJsError (OtherErrorClass "Error")
               ("Configuration property " +:+ quote +:+ "seleniumHubUrl" +:+ quote
                  +:+ " is not defined") None false),
     mkDriverObject None None, [])
  /\ Driver_driver logged (mkDriverObject None None)
       (mkConfigEnv None (<["directConnect" := CBool true]> ∅)) []
     = (Exits 1 browserNotSet, mkDriverObject None None, []).
Proof.
  split.
  - destruct (session_is_not_built_without_configuration logged
                (mkDriverObject None None) (mkConfigEnv (Some "chrome") ∅) [] eq_refl)
      as [Hthrows _].
    apply Hthrows. run.
  - destruct (session_is_not_built_without_configuration logged
                (mkDriverObject None None)
                (mkConfigEnv None (<["directConnect" := CBool true]> ∅)) [] eq_refl)
      as [_ Hexits].
    eapply Hexits; run.
Defined.

Lemma quit_witness :
  Driver_quit logged (mkDriverObject None None) ["started"]
  = (Returns tt, mkDriverObject None None, ["started"])
  /\ (let '(outcome, this1, w1) :=
        Driver_quit logged (mkDriverObject (Some 3%nat) None) [] in
      w1 = ["quit"]
      /\ Driver_driver logged this1 (mkConfigEnv None ∅) w1 = (Returns 3%nat, this1, w1)).
Proof.
  split.
  - destruct (quit_is_a_no_op_without_session_and_keeps_the_session logged
                (mkDriverObject None None) ["started"]) as [Hnone _].
    apply Hnone. reflexivity.
  - destruct (quit_is_a_no_op_without_session_and_keeps_the_session logged
                (mkDriverObject (Some 3%nat) None) []) as [_ Hkept].
    specialize (Hkept 3%nat eq_refl).
    destruct (Driver_quit logged (mkDriverObject (Some 3%nat) None) [])
      as [[outcome this1] w1].
    destruct Hkept as (_ & Hw & Hlater). split; [exact Hw | apply Hlater].
Defined.

Lemma capabilities_witness :
  exists this1,
    Driver_getCapabilities logged (mkDriverObject (Some 3%nat) None)
      (mkConfigEnv None ∅) []
    = (Returns 7%nat, this1, ["getCapabilities"])
    /\ Driver_getCapabilities logged this1 (mkConfigEnv None ∅) ["getCapabilities"]
       = (Returns 7%nat, this1, ["getCapabilities"]).
Proof.
  pose proof (capabilities_are_fetched_once logged
                (mkDriverObject (Some 3%nat) None) (mkConfigEnv None ∅) [] 3%nat
                eq_refl eq_refl) as H.
  cbn [session_getCapabilities logged] in H.
  destruct H as (this1 & Hfirst & _ & Hlater).
  exists this1. split; [exact Hfirst | apply Hlater].
Defined.

Lemma clickSendKeys_witness :
  clickSendKeys scripted Examples.link ["hello"] 2
    (Examples.world [RElement 1; RBool true; RDone; RError Examples.unknownError;
                     RElement 1; RBool true; RDone; RDone])
  = Some (inr tt, Examples.worldAt 800 []).
Proof.
  eapply eq_trans.
  - eapply (clickSendKeys_clicks_again_after_a_failed_typing scripted)
      with (raw := Examples.unknownError);
      [run | run | run | run | run | run | discriminate
       | run | run | run | run | run].
  - run.
Defined.

Lemma expectTextToBe_missing_element_witness :
  expectTextToBe scripted (equal_string := plainEqual string) Examples.link
    "done" (Some "the job should end") 3
    (mkScript 0 0 8000 None [RError Examples.unknownError; RError Examples.noSuchElement])
  = Some (inl (ThrownError
                 (mkJsError NoSuchElementError
                    ("no such element" +:+ chainContext [ByFactory.css "a"])
                    None true)),
          mkScript 16000 0 8000 None [])
  /\ expectTextToBe unconfigured (equal_string := plainEqual string) Examples.link
       "done" (Some "the job should end") 2 (mkScript 0 10000 0 None [])
     = Some (inl (ThrownError
                    (mkJsError (OtherErrorClass "Error")
                       ("Configuration property " +:+ quote +:+ "seleniumHubUrl"
                          +:+ quote +:+ " is not defined"
                          +:+ chainContext [ByFactory.css "a"]) None false)),
             mkScript 50000 10000 0 None []).
Proof.
  split.
  - edestruct (expectTextToBe_on_a_missing_element_throws_the_driver_error scripted
                 (equal_string := plainEqual string) Examples.link "done"
                 (Some "the job should end")
                 (mkScript 0 0 8000 None
                    [RError Examples.unknownError; RError Examples.noSuchElement]))
      with (n := 1%nat) (fuel := 3%nat) as [Hthrows _].
    + run.
    + run.
    + run.
    + eapply unsuccessful_thrown; [run | run | discriminate |].
      apply unsuccessful_done.
    + run.
    + run.
    + discriminate.
    + run.
    + lia.
    + eapply eq_trans; [exact Hthrows | run].
  - edestruct (expectTextToBe_on_a_missing_element_throws_the_driver_error unconfigured
                 (equal_string := plainEqual string) Examples.link "done"
                 (Some "the job should end") (mkScript 0 10000 0 None []))
      with (n := 0%nat) (fuel := 2%nat) as [Hthrows _].
    + run.
    + run.
    + run.
    + apply unsuccessful_done.
    + run.
    + run.
    + discriminate.
    + run.
    + lia.
    + eapply eq_trans; [exact Hthrows | run].
Defined.

Lemma document_collection_witness :
  snd (expectSortedListToBe scripted (equal_texts := plainEqual (list string))
         (dollar_dollar "li") 0 None 1 [["b"; "a"]]
         (Examples.world [RElements [11; 10]; RText "b"; RText "a"]))
  = Some (inr tt, Examples.worldAt 300 [])
  /\ ElementAll_findElements scripted (dollar_dollar "li")
       (Examples.world [RError Examples.invalidSelector])
     = (inl (Throw (fromDriver Examples.invalidSelector)), Examples.worldAt 100 [])
  /\ ElementAll_findElements unconfigured (dollar_dollar "li")
       (Examples.world [RElements [11; 10]])
     = (inl (Throw (mkJsError (OtherErrorClass "Error")
                      ("Configuration property " +:+ quote +:+ "seleniumHubUrl"
                         +:+ quote +:+ " is not defined") None false)),
        Examples.world [RElements [11; 10]]).
Proof.
  split; [|split].
  - destruct (document_collection_sorts_and_compares scripted
                (equal_texts := plainEqual (list string)) (dollar_dollar "li")
                (Examples.world [RElements [11; 10]; RText "b"; RText "a"]))
      as (_ & _ & _ & Hexpect).
    eapply Hexpect with (texts := ["b"; "a"]);
      [run | run | run | run | run | run | run | run | reflexivity | lia].
  - destruct (document_collection_sorts_and_compares scripted
                (equal_texts := plainEqual (list string)) (dollar_dollar "li")
                (Examples.world [RError Examples.invalidSelector]))
      as (_ & Hfails & _).
    eapply Hfails; run.
  - destruct (document_collection_sorts_and_compares unconfigured
                (equal_texts := plainEqual (list string)) (dollar_dollar "li")
                (Examples.world [RElements [11; 10]]))
      as (Hsession & _).
    apply Hsession. run.
Defined.

Lemma process_exit_witness :
  click browserless Examples.link None 1 (Examples.world [RElement 1; RBool true; RDone])
  = Some (inl (ProcessExit 1 browserNotSet),
          Examples.world [RElement 1; RBool true; RDone])
  /\ webDriver_driver browserless (Examples.world [])
     = (inl (Exit 1 browserNotSet), Examples.world []).
Proof.
  destruct (process_exit_ends_a_retry_loop browserless) as (Hloop & Hgetter & _).
  split.
  - unfold click. eapply eq_trans.
    + eapply Hloop with (n := 0%nat).
      * run.
      * apply retrying_done.
      * run.
      * run.
    + run.
  - eapply (Hgetter _ (CString "http://hub:4444") (CString "")); run.
Defined.
